(** * polymarket-apis: websocket channels and order-builder helpers

    A shallow embedding of
    - [polymarket_apis/utilities/order_builder/helpers.py] (tick-grid
      rounding, price bounds, orderbook hash), over a model of the finite
      values of Python's [decimal] module under its default context, and
    - [polymarket_apis/clients/websockets_client.py] (the three socket
      supervisors and their default event handlers), over a store of
      mutable dict objects and a scripted transport.

    Definitions come first; the properties follow. *)

From Stdlib Require Import ZArith QArith Qround Qabs Lia.
From stdpp Require Import gmap strings list fin_maps.

Set Warnings "-register-all".
Local Open Scope Z_scope.

(** ** Results of calls that may raise *)

Inductive result (E A : Type) : Type :=
| Ok (a : A)
| Raise (e : E).
Arguments Ok {E A} a.
Arguments Raise {E A} e.

Definition rbind {E A B} (m : result E A) (k : A -> result E B) : result E B :=
  match m with
  | Ok a => k a
  | Raise e => Raise e
  end.

Notation "'let*' x ':=' m 'in' k" := (rbind m (fun x => k))
  (at level 10, x name, m at level 100, k at level 200).

(** ** Python's [decimal]: finite values under the default context *)

Module PyDecimal.

(** [decimal.getcontext()] as the interpreter creates it: 28 significant
    digits, exponents within [-999999, 999999], no clamping, and the traps
    InvalidOperation, DivisionByZero and Overflow enabled (a trapped signal
    is raised as an exception; Underflow, Inexact, Rounded, Subnormal and
    Clamped only set flags). *)
Definition prec : Z := 28.
Definition Emax : Z := 999999.
Definition Emin : Z := -999999.
Definition Etiny : Z := Emin - prec + 1.
Definition Etop : Z := Emax - prec + 1.

Inductive signal := InvalidOperation | Overflow.

Inductive Rounding := ROUND_FLOOR | ROUND_HALF_UP | ROUND_CEILING | ROUND_HALF_EVEN.

(** A finite Decimal is the triple of [as_tuple()]: sign, coefficient,
    exponent; its value is (-1)^sign * coefficient * 10^exponent.  The
    coefficient is kept as a number: Python stores its digit string without
    leading zeros. *)
Record Decimal := mkDecimal { d_sign : bool; d_int : N; d_exp : Z }.

Definition coeff (x : Decimal) : Z := Z.of_N (d_int x).

Definition signed (x : Decimal) : Z := if d_sign x then - coeff x else coeff x.

Definition is_zero (x : Decimal) : bool := coeff x =? 0.

(** [Decimal(n)] for a Python int. *)
Definition Decimal_of_int (n : Z) : Decimal :=
  mkDecimal (n <? 0) (Z.to_N (Z.abs n)) 0.

(** [len(self._int)]: the number of decimal digits of the coefficient
    (one digit for zero). *)
Fixpoint ndigits_fuel (fuel : nat) (c : Z) : Z :=
  match fuel with
  | O => 1
  | S f => if c <? 10 then 1 else 1 + ndigits_fuel f (c / 10)
  end.

Definition ndigits (c : Z) : Z := ndigits_fuel (Z.to_nat (Z.log2 c)) c.

Definition adjusted (x : Decimal) : Z := d_exp x + ndigits (coeff x) - 1.

(** The rounding functions of [_pick_rounding_function].  Python passes the
    digit string and the number of digits kept; here [q] is the number made
    of the kept digits, [r] the number made of the [k >= 1] dropped digits.
    The answer is 1 to round away from zero, 0 when the dropped digits are
    all zero, -1 to truncate. *)
Definition _round_down (r : Z) : Z := if r =? 0 then 0 else -1.

Definition _round_half_up (r k : Z) : Z :=
  if 5 * 10 ^ (k - 1) <=? r then 1 else if r =? 0 then 0 else -1.

Definition _round_half_even (q r k : Z) : Z :=
  if (r =? 5 * 10 ^ (k - 1)) && Z.even q then -1 else _round_half_up r k.

Definition _round_ceiling (sign : bool) (r : Z) : Z :=
  if sign then _round_down r else - _round_down r.

Definition _round_floor (sign : bool) (r : Z) : Z :=
  if negb sign then _round_down r else - _round_down r.

Definition changed (rounding : Rounding) (sign : bool) (q r k : Z) : Z :=
  match rounding with
  | ROUND_FLOOR => _round_floor sign r
  | ROUND_HALF_UP => _round_half_up r k
  | ROUND_CEILING => _round_ceiling sign r
  | ROUND_HALF_EVEN => _round_half_even q r k
  end.

(** [Decimal._rescale(exp, rounding)]: pad with zeros when the exponent
    goes down, drop [exp - self._exp] digits and round when it goes up.
    (When more digits are dropped than the coefficient has, Python first
    replaces the operand by 1E(exp-1); the kept part is then 0 and the
    dropped part non-zero and below one half, as [q] and [r] are here.) *)
Definition _rescale (self : Decimal) (exp : Z) (rounding : Rounding) : Decimal :=
  if is_zero self then mkDecimal (d_sign self) 0 exp
  else if exp <=? d_exp self then
    mkDecimal (d_sign self) (Z.to_N (coeff self * 10 ^ (d_exp self - exp))) exp
  else
    let k := exp - d_exp self in
    let q := coeff self / 10 ^ k in
    let r := coeff self mod 10 ^ k in
    let c := if changed rounding (d_sign self) q r k =? 1 then q + 1 else q in
    mkDecimal (d_sign self) (Z.to_N c) exp.

(** [Decimal._fix(context)]: round to the context's precision and exponent
    range (rounding mode ROUND_HALF_EVEN, clamp = 0). *)
Definition _fix (self : Decimal) : result signal Decimal :=
  if is_zero self then
    Ok (mkDecimal (d_sign self) 0 (Z.min (Z.max (d_exp self) Etiny) Emax))
  else
    let exp_min0 := ndigits (coeff self) + d_exp self - prec in
    if Etop <? exp_min0 then Raise Overflow
    else
      let exp_min := Z.max exp_min0 Etiny in
      if d_exp self <? exp_min then
        let k := exp_min - d_exp self in
        let q := coeff self / 10 ^ k in
        let r := coeff self mod 10 ^ k in
        let c := if 0 <? changed ROUND_HALF_EVEN (d_sign self) q r k then q + 1 else q in
        let '(c, exp_min) :=
          if prec <? ndigits c then (c / 10, exp_min + 1) else (c, exp_min) in
        if Etop <? exp_min then Raise Overflow
        else Ok (mkDecimal (d_sign self) (Z.to_N c) exp_min)
      else Ok self.

(** [Decimal.scaleb(other)] for an integer [other]. *)
Definition scaleb (self : Decimal) (other : Z) : result signal Decimal :=
  if negb ((-2 * (Emax + prec) <=? other) && (other <=? 2 * (Emax + prec)))
  then Raise InvalidOperation
  else _fix (mkDecimal (d_sign self) (d_int self) (d_exp self + other)).

(** [Decimal.quantize(exp, rounding)]: the value of [self] at the exponent
    of [exp]; InvalidOperation when the coefficient would need more than
    [prec] digits. *)
Definition quantize (self exp : Decimal) (rounding : Rounding) : result signal Decimal :=
  if negb ((Etiny <=? d_exp exp) && (d_exp exp <=? Emax)) then Raise InvalidOperation
  else if is_zero self then _fix (mkDecimal (d_sign self) 0 (d_exp exp))
  else if Emax <? adjusted self then Raise InvalidOperation
  else if prec <? adjusted self - d_exp exp + 1 then Raise InvalidOperation
  else
    let ans := _rescale self (d_exp exp) rounding in
    if Emax <? adjusted ans then Raise InvalidOperation
    else if prec <? ndigits (coeff ans) then Raise InvalidOperation
    else _fix ans.

(** Comparison of finite Decimals is exact (the context plays no part):
    both coefficients are brought to the smaller exponent. *)
Definition aligned (x : Decimal) (e : Z) : Z := signed x * 10 ^ (d_exp x - e).

Definition cmp (a b : Decimal) : comparison :=
  let e := Z.min (d_exp a) (d_exp b) in
  aligned a e ?= aligned b e.

Definition le (a b : Decimal) : bool :=
  match cmp a b with Gt => false | _ => true end.

Definition lt (a b : Decimal) : bool :=
  match cmp a b with Lt => true | _ => false end.

(** [a - b] for non-zero operands: the exact difference at the smaller
    exponent, then [_fix].  (With a zero operand Python picks the exponent
    differently; the helpers never subtract zeros.) *)
Definition sub (a b : Decimal) : result signal Decimal :=
  let e := Z.min (d_exp a) (d_exp b) in
  let s := aligned a e - aligned b e in
  _fix (mkDecimal (s <? 0) (Z.to_N (Z.abs s)) e).

(** The rational number a Decimal denotes. *)
Definition to_Q (x : Decimal) : Q :=
  Qmake (signed x * 10 ^ Z.max (d_exp x) 0) (Z.to_pos (10 ^ Z.max (- d_exp x) 0)).

(** [a * b]: the exact product, then [_fix]. *)
Definition mul (a b : Decimal) : result signal Decimal :=
  _fix (mkDecimal (xorb (d_sign a) (d_sign b)) (d_int a * d_int b) (d_exp a + d_exp b)).

(** [int(x)]: the digits left of the decimal point, with the sign
    (truncation toward zero). *)
Definition to_int (x : Decimal) : Z :=
  if 0 <=? d_exp x then signed x * 10 ^ d_exp x
  else (if d_sign x then -1 else 1) * (coeff x / 10 ^ (- d_exp x)).

End PyDecimal.

Import PyDecimal.

(** ** utilities/order_builder/helpers.py *)

Module Helpers.

(** Modelled from the spec: [TickSize], a [Literal] type declared in
    types/clob_types.py, which is not part of the sources at hand.  "One
    of a fixed enumeration of decimal granularities {0.1, 0.01, 0.001,
    0.0001}." *)
Inductive TickSize := Tick_0_1 | Tick_0_01 | Tick_0_001 | Tick_0_0001.

Definition TickSize_literal (t : TickSize) : string :=
  match t with
  | Tick_0_1 => "0.1"
  | Tick_0_01 => "0.01"
  | Tick_0_001 => "0.001"
  | Tick_0_0001 => "0.0001"
  end.

(** [Decimal(tick_size)]: the literal has a single digit 1 after the zeros. *)
Definition Decimal_of_TickSize (t : TickSize) : Decimal :=
  match t with
  | Tick_0_1 => mkDecimal false 1 (-1)
  | Tick_0_01 => mkDecimal false 1 (-2)
  | Tick_0_001 => mkDecimal false 1 (-3)
  | Tick_0_0001 => mkDecimal false 1 (-4)
  end.

(** [Decimal(str(x))] rebuilds the same triple for a finite Decimal [x]:
    [str] prints sign, every digit of the coefficient and the exponent, and
    the constructor reads a string exactly, without the context. *)
Definition Decimal_of_str_of (x : Decimal) : Decimal := x.

Definition round_down (x : Decimal) (sig_digits : Z) : result signal Decimal :=
  let* exp := scaleb (Decimal_of_int 1) (- sig_digits) in
  quantize (Decimal_of_str_of x) exp ROUND_FLOOR.

Definition round_normal (x : Decimal) (sig_digits : Z) : result signal Decimal :=
  let* exp := scaleb (Decimal_of_int 1) (- sig_digits) in
  quantize (Decimal_of_str_of x) exp ROUND_HALF_UP.

Definition round_up (x : Decimal) (sig_digits : Z) : result signal Decimal :=
  let* exp := scaleb (Decimal_of_int 1) (- sig_digits) in
  quantize (Decimal_of_str_of x) exp ROUND_CEILING.

Definition is_tick_size_smaller (a b : TickSize) : bool :=
  lt (Decimal_of_TickSize a) (Decimal_of_TickSize b).

(** [Decimal(tick_size) <= price <= 1 - Decimal(tick_size)]: a chained
    comparison, so the right operand is only computed when the left
    comparison holds. *)
Definition price_valid (price : Decimal) (tick_size : TickSize) : result signal bool :=
  if le (Decimal_of_TickSize tick_size) price then
    let* upper := sub (Decimal_of_int 1) (Decimal_of_TickSize tick_size) in
    Ok (le price upper)
  else Ok false.

(** Modelled from the spec: [OrderBookSummary] (types/clob_types.py is not
    part of the sources at hand).  "Ordered bid list and ask list (each
    entry: price, size), plus a server-supplied integrity hash string and a
    market/token identifier." *)
Record OrderSummary := mkOrderSummary { level_price : Decimal; level_size : Decimal }.

Record OrderBookSummary := mkOrderBookSummary {
  book_market : string;
  book_asset_id : string;
  book_bids : list OrderSummary;
  book_asks : list OrderSummary;
  book_hash : string
}.

(** [orderbook.hash = h]: assignment to the attribute of the caller's
    object; the object after the assignment. *)
Definition set_hash (h : string) (orderbook : OrderBookSummary) : OrderBookSummary :=
  mkOrderBookSummary (book_market orderbook) (book_asset_id orderbook)
    (book_bids orderbook) (book_asks orderbook) h.

(** What [model_dump_json] raises when a value cannot be serialized. *)
Inductive serialization_error := PydanticSerializationError (msg : string).

Section Hash.

(** [orderbook.model_dump_json(by_alias=True)] (pydantic), which returns
    the text or raises, and [hashlib.sha1(s.encode("utf-8")).hexdigest()]. *)
Variable model_dump_json : OrderBookSummary -> result serialization_error string.
Variable sha1_hexdigest : string -> string.

(** The function works on the caller's object: it returns the digest, or
    the exception of the serializer, together with the object as the call
    leaves it.  There is no [try/finally]: when the serializer raises, the
    assignment that restores the hash is not reached. *)
Definition generate_orderbook_summary_hash (orderbook : OrderBookSummary)
  : result serialization_error string * OrderBookSummary :=
  let server_hash := book_hash orderbook in
  let orderbook := set_hash "" orderbook in
  match model_dump_json orderbook with
  | Raise e => (Raise e, orderbook)
  | Ok dumped =>
      let computed_hash := sha1_hexdigest dumped in
      let orderbook := set_hash server_hash orderbook in
      (Ok computed_hash, orderbook)
  end.

End Hash.

(** The method call binds tighter than the product: [quantize] applies to
    [Decimal(10 ** 6)] alone, and [int] then truncates the product. *)
Definition to_token_decimals (x : Decimal) : result signal Z :=
  let exp := Decimal_of_int 1 in
  let* million := quantize (Decimal_of_int (10 ^ 6)) exp ROUND_HALF_UP in
  let* product := mul (Decimal_of_str_of x) million in
  Ok (to_int product).

(** The exponent of a finite Decimal is an int, so the TypeError branch is
    not taken. *)
Definition decimal_places (x : Decimal) : Z :=
  let exponent := d_exp (Decimal_of_str_of x) in
  Z.max 0 (- exponent).

End Helpers.

Import Helpers.

(** ** clients/websockets_client.py *)

Module Websockets.

(** Values that [json.loads] produces and [json.dumps] accepts.  A float is
    kept as its literal. *)
Inductive JSON :=
| JNull
| JBool (b : bool)
| JInt (z : Z)
| JFloat (literal : string)
| JStr (s : string)
| JList (items : list JSON)
| JDict (fields : gmap string JSON).

(** Instances of [Exception].  (What only derives from [BaseException],
    such as task cancellation, is not an outcome of the code modelled
    here: it is how the never-ending sockets are stopped from outside.) *)
Inductive exn :=
| JSONDecodeError
| ValidationError (errors : list string)
| KeyError (key : string)
| TypeError
| AttributeError (attribute : string)
| AuthenticationRequiredError (msg : string)
| TransportError (what : string).

(** The pydantic models the default Market and User handlers build. *)
Inductive Model :=
| OrderBookSummaryEvent
| PriceChangeEvent
| TickSizeChangeEvent
| LastTradePriceEvent
| OrderEvent
| TradeEvent.

Record Event := mkEvent { ev_model : Model; ev_fields : gmap string JSON }.

(** What [print] writes. *)
Inductive printed :=
| PEvent (e : Event)
| PText (s : string)
| PErrors (errors : list string)
| PJson (j : JSON).

(** What a socket coroutine does to the outside world. *)
Inductive action :=
| Connect (url : string)
| Send (frame : string)
| Sleep (seconds : Z)
| Printed (line : printed).

(** Library code the client calls: the credentials model of
    types/clob_types.py with its two serializations, the [json] module,
    [str] of an exception, and pydantic's validation of the fields a model
    declares besides [event_type]. *)
Class Library := {
  ApiCreds : Type;
  model_dump : ApiCreds -> JSON;
  model_dump_by_alias : ApiCreds -> JSON;
  json_loads : string -> result exn JSON;
  json_dumps : JSON -> string;
  exn_str : exn -> string;
  field_errors : Model -> gmap string JSON -> list string
}.

(** *** Computations that act and may raise *)

Definition io (A : Type) : Type := (list action * result exn A)%type.

Definition ret {A} (a : A) : io A := ([], Ok a).

Definition raise {A} (e : exn) : io A := ([], Raise e).

Definition emit (a : action) : io unit := ([a], Ok tt).

Definition print (p : printed) : io unit := emit (Printed p).

Definition lift {A} (r : result exn A) : io A := ([], r).

Definition bind {A B} (m : io A) (k : A -> io B) : io B :=
  match m with
  | (out, Ok a) => let '(out', r) := k a in (out ++ out', r)
  | (out, Raise e) => (out, Raise e)
  end.

Notation "'run' x := m 'in' k" := (bind m (fun x => k))
  (at level 10, x name, m at level 100, k at level 200).
Notation "m >>> k" := (bind m (fun _ => k)) (at level 60, right associativity).

(** [try: body / except ...]: [handler e] is the suite of the first clause
    that matches [e], if any.  An exception raised inside that suite
    propagates. *)
Definition try_except {A} (body : io A) (handler : exn -> option (io A)) : io A :=
  match body with
  | (out, Ok a) => (out, Ok a)
  | (out, Raise e) =>
      match handler e with
      | Some h => let '(out', r) := h in (out ++ out', r)
      | None => (out, Raise e)
      end
  end.

(** [for x in l: body] *)
Fixpoint for_each {A} (l : list A) (body : A -> io unit) : io unit :=
  match l with
  | [] => ret tt
  | x :: rest => body x >>> for_each rest body
  end.

(** *** Events and the default handlers *)

Section Handlers.

Context `{Library}.

(** [EventWrapper(json_data)] *)
Record EventWrapper := mkEventWrapper { json : JSON; text : string }.

Definition EventWrapper_init (json_data : JSON) : EventWrapper :=
  mkEventWrapper json_data (json_dumps json_data).

(** [item.text] on a decoded JSON value: dict, list, str, int, float, bool
    and None have no such attribute. *)
Definition getattr_text (item : JSON) : result exn string :=
  Raise (AttributeError "text").

(** [message[key]] *)
Definition subscript (message : JSON) (key : string) : result exn JSON :=
  match message with
  | JDict fields =>
      match fields !! key with
      | Some v => Ok v
      | None => Raise (KeyError key)
      end
  | _ => Raise TypeError
  end.

(** [value == literal], as a [case "literal":] pattern tests it. *)
Definition eq_str (value : JSON) (literal : string) : bool :=
  match value with
  | JStr s => String.eqb s literal
  | _ => false
  end.

(** The annotation of [event_type] in each model (websockets_types.py):
    the four Market events require their literal, [OrderEvent] and
    [TradeEvent] declare [Optional[Literal[...]] = None]. *)
Definition event_type_literal (m : Model) : string :=
  match m with
  | OrderBookSummaryEvent => "book"
  | PriceChangeEvent => "price_change"
  | TickSizeChangeEvent => "tick_size_change"
  | LastTradePriceEvent => "last_trade_price"
  | OrderEvent => "order"
  | TradeEvent => "trade"
  end.

Definition event_type_optional (m : Model) : bool :=
  match m with
  | OrderEvent | TradeEvent => true
  | _ => false
  end.

Definition event_type_errors (m : Model) (fields : gmap string JSON) : list string :=
  match fields !! "event_type" with
  | None => if event_type_optional m then [] else ["event_type: Field required"]
  | Some JNull => if event_type_optional m then [] else ["event_type: Input should be a literal"]
  | Some v => if eq_str v (event_type_literal m) then [] else ["event_type: Input should be a literal"]
  end.

(** Calling a model with a decoded value unpacked as its keyword
    arguments: only a dict can be unpacked. *)
Definition construct (m : Model) (kwargs : JSON) : result exn Event :=
  match kwargs with
  | JDict fields =>
      match event_type_errors m fields ++ field_errors m fields with
      | [] => Ok (mkEvent m fields)
      | errors => Raise (ValidationError errors)
      end
  | _ => Raise TypeError
  end.

Definition print_event (m : Model) (message : JSON) : io unit :=
  run e := lift (construct m message) in print (PEvent e).

Definition _process_market_event (event : EventWrapper) : io unit :=
  try_except
    (let message := json event in
     match message with
     | JList items =>
         for_each items (fun item =>
           try_except
             (print_event OrderBookSummaryEvent item)
             (fun e =>
                match e with
                | ValidationError errors =>
                    Some (run t := lift (getattr_text item) in
                          print (PText t) >>> print (PErrors errors))
                | _ => None
                end))
     | _ =>
         run event_type := lift (subscript message "event_type") in
         if eq_str event_type "book" then print_event OrderBookSummaryEvent message
         else if eq_str event_type "price_change" then print_event PriceChangeEvent message
         else if eq_str event_type "tick_size_change" then print_event TickSizeChangeEvent message
         else if eq_str event_type "last_trade_price" then print_event LastTradePriceEvent message
         else print (PJson message)
     end)
    (fun e =>
       match e with
       | JSONDecodeError => Some (print (PText (text event)))
       | ValidationError errors => Some (print (PErrors errors) >>> print (PJson (json event)))
       | _ => None
       end).

Definition _process_user_event (event : EventWrapper) : io unit :=
  try_except
    (let message := json event in
     run event_type := lift (subscript message "event_type") in
     if eq_str event_type "order" then print_event OrderEvent message
     else if eq_str event_type "trade" then print_event TradeEvent message
     else ret tt)
    (fun e =>
       match e with
       | JSONDecodeError => Some (print (PText (text event)))
       | ValidationError errors => Some (print (PText (text event)) >>> print (PErrors errors))
       | _ => None
       end).

End Handlers.

(** *** Mutable dicts

    The caller of [live_data_socket] hands over a list of dict objects.
    A store maps the identity of each dict object to its present contents;
    a location the store does not hold reads as the empty dict. *)

Abbreviation loc := positive (only parsing).
Abbreviation store := (gmap positive (gmap string JSON)) (only parsing).

Definition deref (h : store) (l : loc) : gmap string JSON := default ∅ (h !! l).

(** [d.copy()]: a new object with the same items. *)
Definition dict_copy (h : store) (l : loc) : loc * store :=
  let l' := fresh (dom h) in (l', <[l' := deref h l]> h).

(** [d[key] = value] *)
Definition dict_setitem (h : store) (l : loc) (key : string) (value : JSON) : store :=
  <[l := <[key := value]> (deref h l)]> h.

(** [sub.get("topic") == "clob_user"] *)
Definition is_clob_user (h : store) (sub : loc) : bool :=
  match deref h sub !! "topic" with
  | Some v => eq_str v "clob_user"
  | None => false
  end.

(** *** The transport

    What the socket does during one turn of a coroutine's [while True]
    loop: the connection is refused, or it is made and sending the
    handshake fails, or the handshake is sent and frames arrive until the
    connection ends, normally or with an error. *)
Inductive session :=
| ConnectRaises (e : exn)
| SendRaises (e : exn)
| Receives (frames : list string) (closing : option exn).

Definition connect (url : string) (s : session) : io unit :=
  emit (Connect url) >>>
  match s with
  | ConnectRaises e => raise e
  | _ => ret tt
  end.

Definition send (frame : string) (s : session) : io unit :=
  emit (Send frame) >>>
  match s with
  | SendRaises e => raise e
  | _ => ret tt
  end.

Section Sockets.

Context `{Library}.

Definition url_market : string := "wss://ws-subscriptions-clob.polymarket.com/ws/market".
Definition url_user : string := "wss://ws-subscriptions-clob.polymarket.com/ws/user".
Definition url_live_data : string := "wss://ws-live-data.polymarket.com".

(** The body of [async for message in websocket] with its two [except]
    clauses; [except Exception] takes whatever the first clause leaves. *)
Definition on_message (process_event : EventWrapper -> io unit) (message : string)
  : io unit :=
  try_except
    (run data := lift (json_loads message) in
     process_event (EventWrapper_init data))
    (fun e =>
       match e with
       | JSONDecodeError => Some (print (PText ("Failed to decode message: " +:+ message)))
       | _ => Some (print (PText ("Error processing message: " +:+ exn_str e)))
       end).

(** [async for message in websocket: ...] over the frames of a session. *)
Definition listen (process_event : EventWrapper -> io unit) (s : session) : io unit :=
  match s with
  | Receives frames closing =>
      for_each frames (on_message process_event) >>>
      match closing with
      | Some e => raise e
      | None => ret tt
      end
  | _ => ret tt
  end.

(** One turn of [while True]: connect, send the handshake, listen; any
    exception is reported and followed by a one-second sleep. *)
Definition turn (name url handshake : string) (process_event : EventWrapper -> io unit)
    (s : session) : io unit :=
  try_except
    (connect url s >>> send handshake s >>> listen process_event s)
    (fun e =>
       Some (print (PText (name +:+ " connection error: " +:+ exn_str e +:+
                           ". Reconnecting in 1s...")) >>>
             emit (Sleep 1))).

(** The coroutines never return; they are observed for as long as the
    script of sessions lasts.  The result [Ok tt] says the loop is still
    running when the script ends. *)
Definition market_socket (token_ids : list string) (custom_feature_enabled : bool)
    (process_event : EventWrapper -> io unit) (script : list session) : io unit :=
  for_each script
    (turn "Market socket" url_market
       (json_dumps (JDict (<["assets_ids" := JList (JStr <$> token_ids)]>
                          (<["custom_feature_enabled" := JBool custom_feature_enabled]> ∅))))
       process_event).

Definition user_socket (creds : ApiCreds)
    (process_event : EventWrapper -> io unit) (script : list session) : io unit :=
  for_each script
    (turn "User socket" url_user
       (json_dumps (JDict (<["auth" := model_dump_by_alias creds]> ∅)))
       process_event).

(** [any(sub.get("topic") == "clob_user" for sub in subscriptions)] *)
Fixpoint needs_auth (h : store) (subscriptions : list loc) : bool :=
  match subscriptions with
  | [] => false
  | sub :: rest => if is_clob_user h sub then true else needs_auth h rest
  end.

(** The loop that fills [subscriptions_with_creds]. *)
Fixpoint with_creds (creds : ApiCreds) (subscriptions : list loc)
    (subscriptions_with_creds : list loc) (h : store) : list loc * store :=
  match subscriptions with
  | [] => (subscriptions_with_creds, h)
  | sub :: rest =>
      if is_clob_user h sub then
        let '(sub_copy, h) := dict_copy h sub in
        let h := dict_setitem h sub_copy "clob_auth" (model_dump creds) in
        with_creds creds rest (subscriptions_with_creds ++ [sub_copy]) h
      else
        with_creds creds rest (subscriptions_with_creds ++ [sub]) h
  end.

(** The [payload] dict: its two keys are fixed, its subscriptions are the
    dict objects themselves. *)
Record Payload := mkPayload { action_ : string; subscriptions_ : list loc }.

(** [live_data_socket] up to [payload = ...]. *)
Definition live_data_payload (subscriptions : list loc) (creds : option ApiCreds)
    (h : store) : result exn Payload * store :=
  if needs_auth h subscriptions then
    match creds with
    | None =>
        (Raise (AuthenticationRequiredError
                  "ApiCreds credentials are required for the clob_user topic subscriptions"),
         h)
    | Some creds =>
        let '(subscriptions, h) := with_creds creds subscriptions [] h in
        (Ok (mkPayload "subscribe" subscriptions), h)
    end
  else (Ok (mkPayload "subscribe" subscriptions), h).

(** The value [json.dumps(payload)] serializes. *)
Definition payload_json (h : store) (payload : Payload) : JSON :=
  JDict (<["action" := JStr (action_ payload)]>
         (<["subscriptions" := JList ((fun l => JDict (deref h l)) <$> subscriptions_ payload)]> ∅)).

Definition live_data_socket (subscriptions : list loc)
    (process_event : EventWrapper -> io unit) (creds : option ApiCreds)
    (script : list session) (h : store) : io unit * store :=
  match live_data_payload subscriptions creds h with
  | (Raise e, h) => (raise e, h)
  | (Ok payload, h) =>
      (for_each script
         (turn "Live data socket" url_live_data (json_dumps (payload_json h payload))
            process_event),
       h)
  end.

End Sockets.

End Websockets.

(** ** The default LiveData handler *)

Module LiveData.

Import Websockets.

(** The event models of the LiveData channel (websockets_types.py). *)
Inductive LiveModel :=
| ActivityTradeEvent
| ActivityOrderMatchEvent
| CommentEvent
| ReactionEvent
| RequestEvent
| QuoteEvent
| CryptoPriceSubscribeEvent
| CryptoPriceUpdateEvent
| LiveDataOrderBookSummaryEvent
| LiveDataPriceChangeEvent
| LiveDataLastTradePriceEvent
| LiveDataTickSizeChangeEvent
| MarketStatusChangeEvent
| LiveDataOrderEvent
| LiveDataTradeEvent.

(** The [Literal] each model declares for its [type] field. *)
Definition type_literals (m : LiveModel) : list string :=
  match m with
  | ActivityTradeEvent => ["trades"]
  | ActivityOrderMatchEvent => ["orders_matched"]
  | CommentEvent => ["comment_created"; "comment_removed"]
  | ReactionEvent => ["reaction_created"; "reaction_removed"]
  | RequestEvent =>
      ["request_created"; "request_edited"; "request_canceled"; "request_expired"]
  | QuoteEvent => ["quote_created"; "quote_edited"; "quote_canceled"; "quote_expired"]
  | CryptoPriceSubscribeEvent => ["subscribe"]
  | CryptoPriceUpdateEvent => ["update"]
  | LiveDataOrderBookSummaryEvent => ["agg_orderbook"]
  | LiveDataPriceChangeEvent => ["price_change"]
  | LiveDataLastTradePriceEvent => ["last_trade_price"]
  | LiveDataTickSizeChangeEvent => ["tick_size_change"]
  | MarketStatusChangeEvent => ["market_created"; "market_resolved"]
  | LiveDataOrderEvent => ["order"]
  | LiveDataTradeEvent => ["trade"]
  end.

Record LiveEvent := mkLiveEvent { live_model : LiveModel; live_fields : gmap string JSON }.

(** The [type] field is required and must be one of the literals. *)
Definition type_errors (m : LiveModel) (fields : gmap string JSON) : list string :=
  match fields !! "type" with
  | Some (JStr s) =>
      if existsb (String.eqb s) (type_literals m) then []
      else ["type: Input should be a literal"]
  | Some _ => ["type: Input should be a literal"]
  | None => ["type: Field required"]
  end.

Section Handler.

(** Pydantic's validation of the fields a model declares besides [type],
    and [str] of an event, which [print] writes. *)
Variable live_field_errors : LiveModel -> gmap string JSON -> list string.
Variable live_event_str : LiveEvent -> string.

Definition live_construct (m : LiveModel) (kwargs : JSON) : result exn LiveEvent :=
  match kwargs with
  | JDict fields =>
      match type_errors m fields ++ live_field_errors m fields with
      | [] => Ok (mkLiveEvent m fields)
      | errors => Raise (ValidationError errors)
      end
  | _ => Raise TypeError
  end.

Definition print_live_event (m : LiveModel) (message : JSON) : io unit :=
  run e := lift (live_construct m message) in print (PText (live_event_str e)).

(** A [case "a" | "b":] pattern. *)
Definition eq_any (value : JSON) (literals : list string) : bool :=
  existsb (eq_str value) literals.

Definition _process_live_data_event (event : EventWrapper) : io unit :=
  try_except
    (let message := json event in
     run type := lift (subscript message "type") in
     if eq_str type "trades" then print_live_event ActivityTradeEvent message
     else if eq_str type "orders_matched" then
       print_live_event ActivityOrderMatchEvent message
     else if eq_any type ["comment_created"; "comment_removed"] then
       print_live_event CommentEvent message
     else if eq_any type ["reaction_created"; "reaction_removed"] then
       print_live_event ReactionEvent message
     else if eq_any type ["request_created"; "request_edited"; "request_canceled";
                          "request_expired"] then
       print_live_event RequestEvent message
     else if eq_any type ["quote_created"; "quote_edited"; "quote_canceled";
                          "quote_expired"] then
       print_live_event QuoteEvent message
     else if eq_str type "subscribe" then print_live_event CryptoPriceSubscribeEvent message
     else if eq_str type "update" then print_live_event CryptoPriceUpdateEvent message
     else if eq_str type "agg_orderbook" then
       print_live_event LiveDataOrderBookSummaryEvent message
     else if eq_str type "price_change" then print_live_event LiveDataPriceChangeEvent message
     else if eq_str type "last_trade_price" then
       print_live_event LiveDataLastTradePriceEvent message
     else if eq_str type "tick_size_change" then
       print_live_event LiveDataTickSizeChangeEvent message
     else if eq_any type ["market_created"; "market_resolved"] then
       print_live_event MarketStatusChangeEvent message
     else if eq_str type "order" then print_live_event LiveDataOrderEvent message
     else if eq_str type "trade" then print_live_event LiveDataTradeEvent message
     else print (PJson message))
    (fun e =>
       match e with
       | JSONDecodeError => Some (print (PText (text event)))
       | ValidationError errors => Some (print (PErrors errors) >>> print (PText (text event)))
       | _ => None
       end).

End Handler.

(** The model the handler builds for a [type], if any. *)
Definition live_model_of (type : JSON) : option LiveModel :=
  match type with
  | JStr s =>
      find (fun m => existsb (String.eqb s) (type_literals m))
        [ActivityTradeEvent; ActivityOrderMatchEvent; CommentEvent; ReactionEvent;
         RequestEvent; QuoteEvent; CryptoPriceSubscribeEvent; CryptoPriceUpdateEvent;
         LiveDataOrderBookSummaryEvent; LiveDataPriceChangeEvent;
         LiveDataLastTradePriceEvent; LiveDataTickSizeChangeEvent;
         MarketStatusChangeEvent; LiveDataOrderEvent; LiveDataTradeEvent]
  | _ => None
  end.

End LiveData.

(** ** types/common.py: the hash and address validators *)

Module Common.

(** What the validators are handed: a str, a HexBytes or a bytes object
    (known by what its [hex()] returns), or something else. *)
Inductive pyvalue :=
| PyStr (s : string)
| PyHexBytes (hex : string)
| PyBytes (hex : string)
| PyOther.

Inductive verror := VTypeError | VValueError.

Definition newline : string := String (Ascii.ascii_of_nat 10) EmptyString.

(** [s.startswith("0x")] *)
Definition startswith_0x (s : string) : bool := String.prefix "0x" s.

Definition add_0x (s : string) : string := if startswith_0x s then s else "0x" +:+ s.

(** The character class [a-fA-F0-9], also what [c in "0123456789abcdefABCDEF"]
    tests.  (Under [re.IGNORECASE] the class takes no further character.) *)
Definition is_hex (c : Ascii.ascii) : bool :=
  let n := Ascii.nat_of_ascii c in
  ((48 <=? n) && (n <=? 57) || (97 <=? n) && (n <=? 102) || (65 <=? n) && (n <=? 70))%nat.

(** [count] characters of the class, then the rest of the string. *)
Fixpoint hex_run (count : nat) (s : string) : option string :=
  match count with
  | O => Some s
  | S count' =>
      match s with
      | String c rest => if is_hex c then hex_run count' rest else None
      | EmptyString => None
      end
  end.

(** [$] without MULTILINE: the end of the string, or just before a newline
    that ends the string. *)
Definition at_end (s : string) : bool :=
  match s with
  | EmptyString => true
  | String c EmptyString => Ascii.eqb c (Ascii.ascii_of_nat 10)
  | _ => false
  end.

(** [re.match(r"^0x[a-fA-F0-9]{count}$", v)] *)
Definition match_0x_hex (count : nat) (v : string) : bool :=
  match v with
  | String c0 (String c1 body) =>
      if Ascii.eqb c0 (Ascii.ascii_of_nat 48) && Ascii.eqb c1 (Ascii.ascii_of_nat 120) then
        match hex_run count body with
        | Some rest => at_end rest
        | None => false
        end
      else false
  | _ => false
  end.

Fixpoint all_hex (s : string) : bool :=
  match s with
  | EmptyString => true
  | String c rest => is_hex c && all_hex rest
  end.

Definition validate_keccak256 (v : pyvalue) : result verror string :=
  let* v := match v with
            | PyHexBytes hex | PyBytes hex => Ok hex
            | PyStr s => Ok s
            | PyOther => Raise VTypeError
            end in
  let v := add_0x v in
  if negb (match_0x_hex 64 v) then Raise VValueError else Ok v.

Definition validate_eth_address (v : pyvalue) : result verror string :=
  let* v := match v with
            | PyHexBytes hex | PyBytes hex => Ok hex
            | PyStr s => Ok s
            | PyOther => Raise VTypeError
            end in
  let v := add_0x v in
  if negb (match_0x_hex 40 v) then Raise VValueError else Ok v.

Definition hexbytes_to_str (v : pyvalue) : pyvalue :=
  match v with
  | PyHexBytes hex_str => PyStr (if startswith_0x hex_str then hex_str else "0x" +:+ hex_str)
  | PyBytes hex => PyStr ("0x" +:+ hex)
  | PyStr s => if negb (startswith_0x s) then PyStr ("0x" +:+ s) else v
  | PyOther => v
  end.

Definition validate_keccak_or_padded (v : pyvalue) : result verror string :=
  let* v := match v with
            | PyHexBytes hex | PyBytes hex => Ok hex
            | PyStr s => Ok s
            | PyOther => Raise VTypeError
            end in
  let v := add_0x v in
  if (String.length v =? 66)%nat && all_hex (String.substring 2 (String.length v - 2) v)
  then Ok v
  else Raise VValueError.

End Common.

(** ** types/data_types.py: flattening a GraphQL position *)

Module DataTypes.

Import Websockets.

(** [d.setdefault(key, value)] *)
Definition setdefault (key : string) (value : JSON) (d : gmap string JSON)
  : gmap string JSON :=
  match d !! key with
  | Some _ => d
  | None => <[key := value]> d
  end.

(** [if key in asset: values.setdefault(target, asset[key])] *)
Definition take (asset : gmap string JSON) (key target : string)
    (values : gmap string JSON) : gmap string JSON :=
  match asset !! key with
  | Some v => setdefault target v values
  | None => values
  end.

(** [GQLPosition._flatten]: the dict it was given, as the call leaves it
    (the validator changes its argument in place and returns it). *)
Definition _flatten (values : gmap string JSON) : gmap string JSON :=
  match values !! "asset" with
  | Some (JDict asset) =>
      let values := take asset "id" "token_id" values in
      let values := take asset "complement" "complementary_token_id" values in
      let values :=
        match asset !! "condition" with
        | Some (JDict condition) => take condition "id" "condition_id" values
        | _ => values
        end in
      let values := take asset "outcomeIndex" "outcome_index" values in
      delete "asset" values
  | _ => values
  end.

End DataTypes.

Import Websockets.

(** ** Vocabulary of the properties *)

(** [x / 10^t] is the fraction [scaled_num x t / scaled_den x t]. *)
Definition scaled_num (x : Decimal) (t : Z) : Z := signed x * 10 ^ Z.max (d_exp x - t) 0.
Definition scaled_den (x : Decimal) (t : Z) : Z := 10 ^ Z.max (t - d_exp x) 0.

(** The quantized magnitude [|x| * 10^d] is at most [10^prec - 1]: every
    rounding of it has at most [prec] digits. *)
Definition fits (x : Decimal) (d : Z) : Prop :=
  (Qabs (to_Q x) * inject_Z (10 ^ d) <= inject_Z (10 ^ prec - 1))%Q.

(** The value of each tick size of the grid. *)
Definition tick_value (t : TickSize) : Q :=
  match t with
  | Tick_0_1 => Qmake 1 10
  | Tick_0_01 => Qmake 1 100
  | Tick_0_001 => Qmake 1 1000
  | Tick_0_0001 => Qmake 1 10000
  end.

(** The report a frame leaves when decoding or handling it fails. *)
Definition failure_report `{Library} (message : string) (e : exn) : action :=
  Printed (PText match e with
               | JSONDecodeError => "Failed to decode message: " +:+ message
               | _ => "Error processing message: " +:+ exn_str e
               end).

(** The handshake frame of the Market channel. *)
Definition market_handshake `{Library} (token_ids : list string)
    (custom_feature_enabled : bool) : string :=
  json_dumps (JDict (<["assets_ids" := JList (JStr <$> token_ids)]>
                    (<["custom_feature_enabled" := JBool custom_feature_enabled]> ∅))).

(** What a socket prints and does when its connection ends: nothing when
    it ends normally, the report and a one-second sleep when it ends with
    an exception. *)
Definition connection_report `{Library} (name : string) (closing : option exn)
  : list action :=
  match closing with
  | None => []
  | Some e =>
      [Printed (PText (name +:+ " connection error: " +:+ exn_str e +:+
                       ". Reconnecting in 1s..."));
       Sleep 1]
  end.

(** The message of the error raised when credentials are missing. *)
Definition credentials_required : string :=
  "ApiCreds credentials are required for the clob_user topic subscriptions".


(** A small instance of the library interface, for running the client on
    concrete frames: two frames parse, every other frame is rejected;
    credentials are a key, a secret and a passphrase. *)
Definition sample_library : Library := {|
  ApiCreds := string * string * string;
  model_dump := fun c =>
    JDict (<["api_key" := JStr c.1.1]>
           (<["secret" := JStr c.1.2]>
           (<["passphrase" := JStr c.2]> ∅)));
  model_dump_by_alias := fun c =>
    JDict (<["apiKey" := JStr c.1.1]>
           (<["secret" := JStr c.1.2]>
           (<["passphrase" := JStr c.2]> ∅)));
  json_loads := fun s =>
    if String.eqb s "[]" then Ok (JList [])
    else if String.eqb s "{}" then Ok (JDict ∅)
    else Raise JSONDecodeError;
  json_dumps := fun _ => "<json>";
  exn_str := fun e =>
    match e with
    | KeyError key => key
    | AuthenticationRequiredError msg => msg
    | TransportError what => what
    | AttributeError a => a
    | _ => "error"
    end;
  field_errors := fun _ _ => []
|}.

(** The model each handler builds for a discriminant, if any. *)
Definition market_model (event_type : JSON) : option Model :=
  if eq_str event_type "book" then Some OrderBookSummaryEvent
  else if eq_str event_type "price_change" then Some PriceChangeEvent
  else if eq_str event_type "tick_size_change" then Some TickSizeChangeEvent
  else if eq_str event_type "last_trade_price" then Some LastTradePriceEvent
  else None.

Definition user_model (event_type : JSON) : option Model :=
  if eq_str event_type "order" then Some OrderEvent
  else if eq_str event_type "trade" then Some TradeEvent
  else None.

(** The transport actions of a trace, in the order they happen: what is
    left of the trace when the printed lines are taken out. *)
Definition transport (trace : list action) : list action :=
  omap (fun a => match a with Printed _ => None | _ => Some a end) trace.

Definition is_print (a : action) : Prop :=
  match a with Printed _ => True | _ => False end.

(** A handler that does nothing but print. *)
Definition only_prints (process_event : EventWrapper -> io unit) : Prop :=
  forall event, Forall is_print (process_event event).1.

Definition connected (s : session) : bool :=
  match s with ConnectRaises _ => false | _ => true end.

Definition fails (s : session) : bool :=
  match s with
  | ConnectRaises _ | SendRaises _ | Receives _ (Some _) => true
  | Receives _ None => false
  end.

(** The transport actions of one turn of a socket's loop: the connection
    attempt, the handshake if the connection is made, and last a
    one-second sleep if the turn ended with an exception. *)
Definition turn_transport (url handshake : string) (s : session) : list action :=
  Connect url :: (if connected s then [Send handshake] else []) ++
                 (if fails s then [Sleep 1] else []).

(** The first of two optional values that is present. *)
Definition first_some {A} (a b : option A) : option A :=
  match a with
  | Some _ => a
  | None => b
  end.

Ltac case_leb :=
  repeat match goal with
  | |- context [?a <=? ?b] => destruct (Z.leb_spec a b)
  | |- context [?a <? ?b] => destruct (Z.ltb_spec a b)
  | |- context [?a =? ?b] => destruct (Z.eqb_spec a b)
  end.

(** * Properties

    ** Powers of ten and digit counts *)

Example ndigits_samples :
  map ndigits [0; 9; 10; 99; 100; 12345; 10 ^ 28 - 1; 10 ^ 28] = [1; 1; 2; 2; 3; 5; 28; 29].
Proof. vm_compute. reflexivity. Qed.

Section Pow10.

Lemma pow10_pos (k : Z) : 0 <= k -> 0 < 10 ^ k.
Proof. intros Hk. apply Z.pow_pos_nonneg; lia. Qed.

Lemma pow10_add (a b : Z) : 0 <= a -> 0 <= b -> 10 ^ (a + b) = 10 ^ a * 10 ^ b.
Proof. intros Ha Hb. apply Z.pow_add_r; assumption. Qed.

Lemma pow10_lt_inv (a b : Z) : 0 <= b -> 10 ^ a < 10 ^ b -> a < b.
Proof. intros Hb H. apply (Z.pow_lt_mono_r_iff 10); lia. Qed.

Lemma pow10_le_mono (a b : Z) : 0 <= a <= b -> 10 ^ a <= 10 ^ b.
Proof. intros H. apply Z.pow_le_mono_r; lia. Qed.

Lemma ndigits_fuel_spec (fuel : nat) :
  forall c, 0 < c < 2 ^ (Z.of_nat fuel + 1) ->
    1 <= ndigits_fuel fuel c /\
    10 ^ (ndigits_fuel fuel c - 1) <= c < 10 ^ ndigits_fuel fuel c.
Proof.
  induction fuel as [|fuel IH]; intros c Hc.
  - change (2 ^ (Z.of_nat 0 + 1)) with 2 in Hc. simpl.
    change (10 ^ (1 - 1)) with 1. change (10 ^ 1) with 10. lia.
  - cbn [ndigits_fuel]. destruct (Z.ltb_spec c 10) as [Hlt|Hge].
    + change (10 ^ (1 - 1)) with 1. change (10 ^ 1) with 10. lia.
    + assert (Hp : 0 < 2 ^ (Z.of_nat fuel + 1)) by (apply Z.pow_pos_nonneg; lia).
      assert (H2 : 2 ^ (Z.of_nat (S fuel) + 1) = 2 * 2 ^ (Z.of_nat fuel + 1)).
      { rewrite <- Z.pow_succ_r by lia. f_equal. lia. }
      assert (Hdiv : 0 < c / 10 < 2 ^ (Z.of_nat fuel + 1)).
      { split.
        - apply Z.div_str_pos. lia.
        - apply Z.div_lt_upper_bound; lia. }
      destruct (IH _ Hdiv) as [Hn [Hlo Hhi]].
      set (n := ndigits_fuel fuel (c / 10)) in *.
      replace (1 + n - 1) with ((n - 1) + 1) by lia.
      replace (1 + n) with (n + 1) by lia.
      rewrite !pow10_add by lia. change (10 ^ 1) with 10.
      pose proof (Z.div_mod c 10 ltac:(lia)) as Hdm.
      pose proof (Z.mod_pos_bound c 10 ltac:(lia)) as Hmb.
      lia.
Qed.

Lemma ndigits_spec (c : Z) :
  0 < c -> 1 <= ndigits c /\ 10 ^ (ndigits c - 1) <= c < 10 ^ ndigits c.
Proof.
  intros Hc. unfold ndigits. apply ndigits_fuel_spec.
  rewrite Z2Nat.id by apply Z.log2_nonneg.
  pose proof (Z.log2_spec c Hc) as Hl.
  replace (Z.log2 c + 1) with (Z.succ (Z.log2 c)) by lia. lia.
Qed.

Lemma ndigits_le (c n : Z) : 0 < c -> 0 <= n -> c < 10 ^ n -> ndigits c <= n.
Proof.
  intros Hc Hn Hlt. destruct (ndigits_spec c Hc) as [H1 [Hlo _]].
  assert (ndigits c - 1 < n) by (apply pow10_lt_inv; lia). lia.
Qed.

Lemma ndigits_gt (c n : Z) : 0 < c -> 0 <= n -> 10 ^ n <= c -> n < ndigits c.
Proof.
  intros Hc Hn Hle. destruct (ndigits_spec c Hc) as [H1 [_ Hhi]].
  apply pow10_lt_inv; lia.
Qed.

End Pow10.

(** ** What [_rescale] computes *)

Section Rescale.

Lemma coeff_mk (s : bool) (z t : Z) : 0 <= z -> coeff (mkDecimal s (Z.to_N z) t) = z.
Proof. intros Hz. unfold coeff. cbn [d_int]. apply Z2N.id, Hz. Qed.

Lemma coeff_nonneg (x : Decimal) : 0 <= coeff x.
Proof. unfold coeff. lia. Qed.

Lemma scaled_den_pos (x : Decimal) (t : Z) : 0 < scaled_den x t.
Proof. unfold scaled_den. apply pow10_pos. lia. Qed.

Lemma rescale_exp (x : Decimal) (t : Z) (rnd : Rounding) : d_exp (_rescale x t rnd) = t.
Proof. unfold _rescale. destruct (is_zero x), (t <=? d_exp x); reflexivity. Qed.

Lemma rescale_sign (x : Decimal) (t : Z) (rnd : Rounding) :
  d_sign (_rescale x t rnd) = d_sign x.
Proof. unfold _rescale. destruct (is_zero x), (t <=? d_exp x); reflexivity. Qed.

(** The coefficient after rescaling: the truncated quotient, plus one when
    the rounding function says so. *)
Lemma rescale_coeff (x : Decimal) (t : Z) (rnd : Rounding) :
  let q := Z.abs (scaled_num x t) / scaled_den x t in
  let r := Z.abs (scaled_num x t) mod scaled_den x t in
  coeff (_rescale x t rnd) =
    if (d_exp x <? t) && negb (is_zero x) &&
       (changed rnd (d_sign x) q r (t - d_exp x) =? 1)
    then q + 1 else q.
Proof.
  pose proof (coeff_nonneg x) as Hc.
  unfold _rescale, scaled_num, scaled_den, is_zero, signed.
  destruct (Z.eqb_spec (coeff x) 0) as [Hz|Hnz].
  - rewrite Hz. rewrite andb_false_r. cbn [andb negb].
    destruct (d_sign x); cbn [Z.opp Z.mul Z.abs]; rewrite Z.div_0_l;
      try reflexivity; pose proof (pow10_pos (Z.max (t - d_exp x) 0)); lia.
  - destruct (Z.leb_spec t (d_exp x)) as [Hle|Hgt].
    + replace (d_exp x <? t) with false by (symmetry; apply Z.ltb_ge; lia).
      cbn [andb].
      rewrite Z.max_l by lia. rewrite (Z.max_r (t - d_exp x) 0) by lia.
      change (10 ^ 0) with 1. rewrite Z.div_1_r.
      pose proof (pow10_pos (d_exp x - t) ltac:(lia)) as Hp.
      rewrite coeff_mk by nia.
      destruct (d_sign x); nia.
    + replace (d_exp x <? t) with true by (symmetry; apply Z.ltb_lt; lia).
      cbn [andb negb].
      rewrite Z.max_r by lia. rewrite (Z.max_l (t - d_exp x) 0) by lia.
      change (10 ^ 0) with 1.
      replace (Z.abs ((if d_sign x then - coeff x else coeff x) * 1)) with (coeff x)
        by (destruct (d_sign x); lia).
      pose proof (pow10_pos (t - d_exp x) ltac:(lia)) as Hp.
      assert (0 <= coeff x / 10 ^ (t - d_exp x)) by (apply Z.div_pos; lia).
      rewrite coeff_mk; [reflexivity|].
      destruct (_ =? 1); lia.
Qed.

Lemma scaled_rem_trivial (x : Decimal) (t : Z) :
  (d_exp x <? t) && negb (is_zero x) = false ->
  Z.abs (scaled_num x t) mod scaled_den x t = 0.
Proof.
  unfold scaled_num, scaled_den, is_zero, signed. intros H.
  destruct (Z.ltb_spec (d_exp x) t) as [Hlt|Hge].
  - cbn [andb] in H. apply negb_false_iff, Z.eqb_eq in H. rewrite H.
    destruct (d_sign x); cbn [Z.opp Z.mul Z.abs]; apply Z.mod_0_l;
      pose proof (pow10_pos (Z.max (t - d_exp x) 0)); lia.
  - rewrite (Z.max_r (t - d_exp x) 0) by lia. apply Z.mod_1_r.
Qed.

Lemma scaled_den_drop (x : Decimal) (t : Z) :
  d_exp x < t -> scaled_den x t = 10 * 10 ^ (t - d_exp x - 1).
Proof.
  intros H. unfold scaled_den. rewrite Z.max_l by lia.
  replace (t - d_exp x) with (1 + (t - d_exp x - 1)) at 1 by lia.
  rewrite pow10_add by lia. reflexivity.
Qed.

Lemma rescale_floor_coeff (x : Decimal) (t : Z) :
  let q := Z.abs (scaled_num x t) / scaled_den x t in
  let r := Z.abs (scaled_num x t) mod scaled_den x t in
  coeff (_rescale x t ROUND_FLOOR) = if d_sign x && negb (r =? 0) then q + 1 else q.
Proof.
  cbv zeta. rewrite rescale_coeff.
  destruct ((d_exp x <? t) && negb (is_zero x)) eqn:G; cbn [andb].
  - unfold changed, _round_floor, _round_down.
    destruct (d_sign x); cbn [negb andb];
      destruct (Z.abs (scaled_num x t) mod scaled_den x t =? 0); reflexivity.
  - rewrite (scaled_rem_trivial _ _ G). rewrite andb_false_r. reflexivity.
Qed.

Lemma rescale_ceiling_coeff (x : Decimal) (t : Z) :
  let q := Z.abs (scaled_num x t) / scaled_den x t in
  let r := Z.abs (scaled_num x t) mod scaled_den x t in
  coeff (_rescale x t ROUND_CEILING) =
    if negb (d_sign x) && negb (r =? 0) then q + 1 else q.
Proof.
  cbv zeta. rewrite rescale_coeff.
  destruct ((d_exp x <? t) && negb (is_zero x)) eqn:G; cbn [andb].
  - unfold changed, _round_ceiling, _round_down.
    destruct (d_sign x); cbn [negb andb];
      destruct (Z.abs (scaled_num x t) mod scaled_den x t =? 0); reflexivity.
  - rewrite (scaled_rem_trivial _ _ G). rewrite andb_false_r. reflexivity.
Qed.

Lemma rescale_half_up_coeff (x : Decimal) (t : Z) :
  let q := Z.abs (scaled_num x t) / scaled_den x t in
  let r := Z.abs (scaled_num x t) mod scaled_den x t in
  coeff (_rescale x t ROUND_HALF_UP) = if scaled_den x t <=? 2 * r then q + 1 else q.
Proof.
  cbv zeta. rewrite rescale_coeff.
  pose proof (scaled_den_pos x t) as HD.
  destruct ((d_exp x <? t) && negb (is_zero x)) eqn:G; cbn [andb].
  - apply andb_true_iff in G as [Hlt _]. apply Z.ltb_lt in Hlt.
    unfold changed, _round_half_up.
    pose proof (scaled_den_drop x t Hlt) as HD10.
    set (r := Z.abs (scaled_num x t) mod scaled_den x t).
    set (h := 10 ^ (t - d_exp x - 1)) in *.
    destruct (Z.leb_spec (5 * h) r), (Z.leb_spec (scaled_den x t) (2 * r));
      try lia; try reflexivity.
    destruct (r =? 0); reflexivity.
  - rewrite (scaled_rem_trivial _ _ G).
    destruct (Z.leb_spec (scaled_den x t) (2 * 0)); [lia|reflexivity].
Qed.

End Rescale.

(** ** Floor, ceiling and half-up as integer quotients *)

Section Quotients.

Lemma div_opp_floor (A D : Z) :
  0 < D -> (- A) / D = - (A / D + (if A mod D =? 0 then 0 else 1)).
Proof.
  intros HD.
  pose proof (Z.div_mod A D ltac:(lia)) as Hdm.
  pose proof (Z.mod_pos_bound A D HD) as Hmb.
  destruct (Z.eqb_spec (A mod D) 0) as [Hz|Hnz]; symmetry.
  - apply (Z.div_unique _ _ _ 0); lia.
  - apply (Z.div_unique _ _ _ (D - A mod D)); lia.
Qed.

Lemma div_half_up (A D : Z) :
  0 < D ->
  (2 * A + D) / (2 * D) = A / D + (if D <=? 2 * (A mod D) then 1 else 0).
Proof.
  intros HD.
  pose proof (Z.div_mod A D ltac:(lia)) as Hdm.
  pose proof (Z.mod_pos_bound A D HD) as Hmb.
  destruct (Z.leb_spec D (2 * (A mod D))) as [Hup|Hdown]; symmetry.
  - apply (Z.div_unique _ _ _ (2 * (A mod D) - D)); lia.
  - apply (Z.div_unique _ _ _ (2 * (A mod D) + D)); lia.
Qed.

Lemma signed_rescale (x : Decimal) (t : Z) (rnd : Rounding) :
  signed (_rescale x t rnd) =
    if d_sign x then - coeff (_rescale x t rnd) else coeff (_rescale x t rnd).
Proof. unfold signed. rewrite rescale_sign. reflexivity. Qed.

Lemma scaled_num_sign (x : Decimal) (t : Z) :
  scaled_num x t =
    if d_sign x then - Z.abs (scaled_num x t) else Z.abs (scaled_num x t).
Proof.
  unfold scaled_num, signed. pose proof (coeff_nonneg x).
  pose proof (pow10_pos (Z.max (d_exp x - t) 0) ltac:(lia)).
  destruct (d_sign x); nia.
Qed.

Lemma rescale_floor_signed (x : Decimal) (t : Z) :
  signed (_rescale x t ROUND_FLOOR) = scaled_num x t / scaled_den x t.
Proof.
  rewrite signed_rescale, rescale_floor_coeff.
  pose proof (scaled_num_sign x t) as HN.
  pose proof (scaled_den_pos x t) as HD.
  set (A := Z.abs (scaled_num x t)) in *.
  destruct (d_sign x); cbn [andb negb]; rewrite HN; [|reflexivity].
  rewrite div_opp_floor by assumption.
  destruct (_ =? 0); cbn [negb]; lia.
Qed.

Lemma rescale_ceiling_signed (x : Decimal) (t : Z) :
  signed (_rescale x t ROUND_CEILING) = - ((- scaled_num x t) / scaled_den x t).
Proof.
  rewrite signed_rescale, rescale_ceiling_coeff.
  pose proof (scaled_num_sign x t) as HN.
  pose proof (scaled_den_pos x t) as HD.
  set (A := Z.abs (scaled_num x t)) in *.
  destruct (d_sign x); cbn [andb negb]; rewrite HN.
  - rewrite Z.opp_involutive. reflexivity.
  - rewrite div_opp_floor by assumption.
    destruct (_ =? 0); cbn [negb]; lia.
Qed.

Lemma rescale_half_up_abs (x : Decimal) (t : Z) :
  coeff (_rescale x t ROUND_HALF_UP) =
    (2 * Z.abs (scaled_num x t) + scaled_den x t) / (2 * scaled_den x t).
Proof.
  rewrite rescale_half_up_coeff, div_half_up by apply scaled_den_pos.
  destruct (_ <=? _); lia.
Qed.

End Quotients.

(** ** Decimals as rationals *)

Section Rationals.

Lemma Zpos_pow10 (k : Z) : 0 <= k -> Zpos (Z.to_pos (10 ^ k)) = 10 ^ k.
Proof. intros Hk. apply Z2Pos.id, pow10_pos, Hk. Qed.

Lemma to_Q_scaled (x : Decimal) (d : Z) :
  0 <= d ->
  (to_Q x * inject_Z (10 ^ d) ==
   Qmake (scaled_num x (- d)) (Z.to_pos (scaled_den x (- d))))%Q.
Proof.
  intros Hd. unfold Qeq, to_Q, scaled_num, scaled_den, Qmult, inject_Z.
  cbn [Qnum Qden]. rewrite Pos2Z.inj_mul, !Zpos_pow10 by lia.
  rewrite Z.mul_1_r, <- !Z.mul_assoc. f_equal.
  rewrite <- !pow10_add by lia. f_equal. lia.
Qed.

Lemma Qabs_to_Q_scaled (x : Decimal) (d : Z) :
  0 <= d ->
  (Qabs (to_Q x) * inject_Z (10 ^ d) ==
   Qmake (Z.abs (scaled_num x (- d))) (Z.to_pos (scaled_den x (- d))))%Q.
Proof.
  intros Hd. unfold Qeq, to_Q, scaled_num, scaled_den, Qmult, Qabs, inject_Z.
  cbn [Qnum Qden]. rewrite Pos2Z.inj_mul, !Zpos_pow10 by lia.
  rewrite !Z.abs_mul.
  rewrite !(Z.abs_eq (10 ^ _)) by (apply Z.lt_le_incl, pow10_pos; lia).
  rewrite Z.mul_1_r, <- !Z.mul_assoc. f_equal.
  rewrite <- !pow10_add by lia. f_equal. lia.
Qed.

Lemma Qfloor_scaled (x : Decimal) (d : Z) :
  0 <= d ->
  Qfloor (to_Q x * inject_Z (10 ^ d)) = scaled_num x (- d) / scaled_den x (- d).
Proof.
  intros Hd. rewrite (Qfloor_comp _ _ (to_Q_scaled x d Hd)).
  unfold Qfloor. rewrite Z2Pos.id by apply scaled_den_pos. reflexivity.
Qed.

Lemma Qceiling_scaled (x : Decimal) (d : Z) :
  0 <= d ->
  Qceiling (to_Q x * inject_Z (10 ^ d)) =
    - ((- scaled_num x (- d)) / scaled_den x (- d)).
Proof.
  intros Hd. rewrite (Qceiling_comp _ _ (to_Q_scaled x d Hd)).
  unfold Qceiling, Qfloor, Qopp. cbn [Qnum Qden].
  rewrite Z2Pos.id by apply scaled_den_pos. reflexivity.
Qed.

Lemma Qfloor_half_scaled (x : Decimal) (d : Z) :
  0 <= d ->
  Qfloor (Qabs (to_Q x) * inject_Z (10 ^ d) + Qmake 1 2) =
    (2 * Z.abs (scaled_num x (- d)) + scaled_den x (- d)) / (2 * scaled_den x (- d)).
Proof.
  intros Hd.
  pose proof (scaled_den_pos x (- d)) as HD.
  assert (E : (Qabs (to_Q x) * inject_Z (10 ^ d) + Qmake 1 2 ==
               Qmake (2 * Z.abs (scaled_num x (- d)) + scaled_den x (- d))
                     (Z.to_pos (2 * scaled_den x (- d))))%Q).
  { rewrite (Qabs_to_Q_scaled x d Hd). unfold Qeq, Qplus. cbn [Qnum Qden].
    rewrite Pos2Z.inj_mul, !Z2Pos.id by lia. lia. }
  rewrite (Qfloor_comp _ _ E). unfold Qfloor. rewrite Z2Pos.id by lia. reflexivity.
Qed.

(** Python's [<=] on finite Decimals is the order of the rationals. *)
Lemma le_Qle (a b : Decimal) : le a b = true <-> (to_Q a <= to_Q b)%Q.
Proof.
  unfold le, cmp, aligned, Qle, to_Q. cbn [Qnum Qden].
  rewrite !Zpos_pow10 by lia.
  set (m := Z.min (d_exp a) (d_exp b)).
  set (K := Z.max (- d_exp a) 0 + Z.max (- d_exp b) 0 + m).
  assert (HK : 0 <= K) by lia.
  pose proof (pow10_pos K HK) as HpK.
  assert (Ea : signed a * 10 ^ Z.max (d_exp a) 0 * 10 ^ Z.max (- d_exp b) 0 =
               signed a * 10 ^ (d_exp a - m) * 10 ^ K).
  { rewrite <- !Z.mul_assoc. f_equal. rewrite <- !pow10_add by lia. f_equal. lia. }
  assert (Eb : signed b * 10 ^ Z.max (d_exp b) 0 * 10 ^ Z.max (- d_exp a) 0 =
               signed b * 10 ^ (d_exp b - m) * 10 ^ K).
  { rewrite <- !Z.mul_assoc. f_equal. rewrite <- !pow10_add by lia. f_equal. lia. }
  rewrite Ea, Eb.
  rewrite <- (Z.mul_le_mono_pos_r _ _ _ HpK).
  destruct (Z.compare_spec (signed a * 10 ^ (d_exp a - m)) (signed b * 10 ^ (d_exp b - m)));
    split; intros; try reflexivity; try lia; discriminate.
Qed.

End Rationals.

(** ** When [quantize] returns *)

Section Quantize.

Lemma fits_Z (x : Decimal) (d : Z) :
  0 <= d ->
  fits x d <-> Z.abs (scaled_num x (- d)) <= (10 ^ prec - 1) * scaled_den x (- d).
Proof.
  intros Hd. unfold fits. rewrite (Qabs_to_Q_scaled x d Hd).
  unfold Qle, inject_Z. cbn [Qnum Qden].
  rewrite Z2Pos.id by apply scaled_den_pos. lia.
Qed.

Lemma scaleb_one (d : Z) :
  0 <= d <= 1000026 ->
  scaleb (Decimal_of_int 1) (- d) = Ok (mkDecimal false 1 (- d)).
Proof.
  intros Hd. change (Decimal_of_int 1) with (mkDecimal false 1 0).
  unfold scaleb, _fix, is_zero, coeff. cbn [d_sign d_int d_exp].
  change (Z.of_N 1) with 1. change (ndigits 1) with 1. change (1 =? 0) with false.
  unfold Etiny, Etop, Emax, Emin, prec in *.
  case_leb; cbn [andb negb]; try lia; reflexivity.
Qed.

(** The closing [_fix] of [quantize] finds nothing to do: the answer has
    at most [prec] digits and its exponent is within [Etiny, Emax]. *)
Lemma fix_id (a : Decimal) :
  Etiny <= d_exp a <= Emax ->
  (is_zero a = false -> ndigits (coeff a) <= prec /\ adjusted a <= Emax) ->
  _fix a = Ok a.
Proof.
  intros He Hnz. unfold _fix. destruct (is_zero a) eqn:Hz.
  - rewrite Z.max_l, Z.min_l by lia.
    unfold is_zero, coeff in Hz. apply Z.eqb_eq in Hz.
    destruct a as [s c e]. cbn in *. f_equal. f_equal. lia.
  - destruct (Hnz eq_refl) as [Hn Ha]. unfold adjusted in Ha.
    unfold Etop, Etiny, Emin, Emax, prec in *.
    case_leb; try lia; reflexivity.
Qed.

Lemma quantize_inv (x e r : Decimal) (rnd : Rounding) :
  quantize x e rnd = Ok r -> r = _rescale x (d_exp e) rnd.
Proof.
  unfold quantize. intros H.
  destruct (negb _) eqn:Hrange; [discriminate|].
  apply negb_false_iff, andb_true_iff in Hrange as [H1 H2].
  apply Z.leb_le in H1, H2.
  destruct (is_zero x) eqn:Hz.
  - rewrite fix_id in H; [| cbn [d_exp]; lia | discriminate].
    injection H as <-. unfold _rescale. rewrite Hz. reflexivity.
  - destruct (Emax <? adjusted x); [discriminate|].
    destruct (prec <? adjusted x - d_exp e + 1); [discriminate|].
    destruct (Z.ltb_spec Emax (adjusted (_rescale x (d_exp e) rnd))); [discriminate|].
    destruct (Z.ltb_spec prec (ndigits (coeff (_rescale x (d_exp e) rnd))));
      [discriminate|].
    rewrite fix_id in H; [injection H as <-; reflexivity | | intros _; lia].
    rewrite rescale_exp. lia.
Qed.

Lemma changed_one_rem (rnd : Rounding) (s : bool) (q r k : Z) :
  1 <= k -> changed rnd s q r k = 1 -> r <> 0.
Proof.
  intros Hk. pose proof (pow10_pos (k - 1) ltac:(lia)) as Hp.
  unfold changed, _round_floor, _round_ceiling, _round_half_even, _round_half_up,
    _round_down.
  destruct rnd, s; cbn [negb];
    repeat match goal with
    | |- context [if ?b then _ else _] => destruct b eqn:?
    end; try lia; intros _; lia.
Qed.

Lemma rescale_coeff_le (x : Decimal) (t : Z) (rnd : Rounding) :
  let q := Z.abs (scaled_num x t) / scaled_den x t in
  let r := Z.abs (scaled_num x t) mod scaled_den x t in
  coeff (_rescale x t rnd) <= q + (if r =? 0 then 0 else 1).
Proof.
  cbv zeta. rewrite rescale_coeff.
  destruct ((d_exp x <? t) && negb (is_zero x)) eqn:G; cbn [andb].
  - apply andb_true_iff in G as [Hlt _]. apply Z.ltb_lt in Hlt.
    destruct (Z.eqb_spec (changed rnd (d_sign x)
      (Z.abs (scaled_num x t) / scaled_den x t)
      (Z.abs (scaled_num x t) mod scaled_den x t) (t - d_exp x)) 1) as [E|_].
    + apply changed_one_rem in E; [|lia].
      destruct (Z.eqb_spec (Z.abs (scaled_num x t) mod scaled_den x t) 0); lia.
    + destruct (_ =? 0); lia.
  - destruct (_ =? 0); lia.
Qed.

Lemma fits_rescale_bound (x : Decimal) (d : Z) (rnd : Rounding) :
  0 <= d -> fits x d -> coeff (_rescale x (- d) rnd) < 10 ^ prec.
Proof.
  intros Hd Hf. apply fits_Z in Hf; [|assumption].
  pose proof (rescale_coeff_le x (- d) rnd) as Hle. cbv zeta in Hle.
  pose proof (scaled_den_pos x (- d)) as HD.
  pose proof (Z.div_mod (Z.abs (scaled_num x (- d))) (scaled_den x (- d)) ltac:(lia)) as Hdm.
  pose proof (Z.mod_pos_bound (Z.abs (scaled_num x (- d))) (scaled_den x (- d)) HD) as Hmb.
  set (A := Z.abs (scaled_num x (- d))) in *.
  set (D := scaled_den x (- d)) in *.
  set (M := 10 ^ prec) in *.
  destruct (Z.eqb_spec (A mod D) 0); nia.
Qed.

Lemma fits_adjusted (x : Decimal) (d : Z) :
  0 <= d -> fits x d -> is_zero x = false ->
  ndigits (coeff x) + d_exp x + d <= prec.
Proof.
  intros Hd Hf Hnz. apply fits_Z in Hf; [|assumption].
  unfold is_zero in Hnz. apply Z.eqb_neq in Hnz.
  pose proof (coeff_nonneg x) as Hc.
  destruct (ndigits_spec (coeff x) ltac:(lia)) as [Hn [Hlo _]].
  unfold scaled_num, scaled_den, signed in Hf.
  replace (Z.abs ((if d_sign x then - coeff x else coeff x) *
                  10 ^ Z.max (d_exp x - - d) 0))
    with (coeff x * 10 ^ Z.max (d_exp x - - d) 0) in Hf.
  2:{ pose proof (pow10_pos (Z.max (d_exp x - - d) 0) ltac:(lia)).
      destruct (d_sign x); nia. }
  unfold prec in *.
  destruct (Z.le_gt_cases 0 (d_exp x + d)) as [Hge|Hlt].
  - rewrite Z.max_l, Z.max_r in Hf by lia. change (10 ^ 0) with 1 in Hf.
    pose proof (pow10_pos (d_exp x - - d) ltac:(lia)) as Hp.
    assert (H : 10 ^ (ndigits (coeff x) - 1 + (d_exp x - - d)) < 10 ^ 28).
    { rewrite pow10_add by lia. nia. }
    apply pow10_lt_inv in H; lia.
  - rewrite Z.max_r, Z.max_l in Hf by lia. change (10 ^ 0) with 1 in Hf.
    pose proof (pow10_pos (- d - d_exp x) ltac:(lia)) as Hp.
    assert (H : 10 ^ (ndigits (coeff x) - 1) < 10 ^ (28 + (- d - d_exp x))).
    { rewrite pow10_add by lia. nia. }
    apply pow10_lt_inv in H; lia.
Qed.

Lemma quantize_fits (x : Decimal) (d : Z) (rnd : Rounding) :
  0 <= d <= 1000026 -> fits x d ->
  quantize x (mkDecimal false 1 (- d)) rnd = Ok (_rescale x (- d) rnd).
Proof.
  intros Hd Hf. unfold quantize. cbn [d_exp].
  assert (Hrange : Etiny <= - d <= Emax) by (unfold Etiny, Emin, Emax, prec; lia).
  replace ((Etiny <=? - d) && (- d <=? Emax)) with true.
  2:{ symmetry. apply andb_true_iff. split; apply Z.leb_le; lia. }
  cbn [negb].
  destruct (is_zero x) eqn:Hz.
  { unfold _rescale. rewrite Hz. apply fix_id; [cbn [d_exp]; lia|discriminate]. }
  pose proof (fits_adjusted x d ltac:(lia) Hf Hz) as Hadj.
  pose proof (fits_rescale_bound x d rnd ltac:(lia) Hf) as Hb.
  pose proof (coeff_nonneg (_rescale x (- d) rnd)) as Hc.
  assert (Hn : ndigits (coeff (_rescale x (- d) rnd)) <= prec).
  { destruct (Z.eq_dec (coeff (_rescale x (- d) rnd)) 0) as [E|E].
    - rewrite E. unfold prec. change (ndigits 0) with 1. lia.
    - apply ndigits_le; unfold prec in *; lia. }
  assert (Ha : adjusted (_rescale x (- d) rnd) <= Emax).
  { unfold adjusted. rewrite rescale_exp. unfold Emax, prec in *. lia. }
  rewrite fix_id; [| rewrite rescale_exp; lia | auto].
  unfold adjusted in *. rewrite rescale_exp in *.
  unfold Emax, prec in *.
  case_leb; try lia; reflexivity.
Qed.

End Quantize.

(** ** Order between a Decimal and its roundings *)

Section Brackets.

Lemma cmp_rescale_l (x : Decimal) (t : Z) (rnd : Rounding) :
  cmp (_rescale x t rnd) x =
    (signed (_rescale x t rnd) * scaled_den x t ?= scaled_num x t).
Proof.
  unfold cmp, aligned, scaled_den, scaled_num. rewrite rescale_exp.
  f_equal; f_equal; f_equal; lia.
Qed.

Lemma cmp_rescale_r (x : Decimal) (t : Z) (rnd : Rounding) :
  cmp x (_rescale x t rnd) =
    (scaled_num x t ?= signed (_rescale x t rnd) * scaled_den x t).
Proof.
  unfold cmp, aligned, scaled_den, scaled_num. rewrite rescale_exp.
  f_equal; f_equal; f_equal; lia.
Qed.

Lemma cmp_same_exp (a b : Decimal) :
  d_exp a = d_exp b -> cmp a b = (signed a ?= signed b).
Proof.
  intros E. unfold cmp, aligned. rewrite E, Z.min_id, Z.sub_diag.
  change (10 ^ 0) with 1. rewrite !Z.mul_1_r. reflexivity.
Qed.

Lemma le_compare (a b : Decimal) (u v : Z) :
  cmp a b = (u ?= v) -> u <= v -> le a b = true.
Proof.
  intros E H. unfold le. rewrite E.
  destruct (Z.compare_spec u v); try reflexivity; lia.
Qed.

Lemma rescale_floor_le (x : Decimal) (t : Z) : le (_rescale x t ROUND_FLOOR) x = true.
Proof.
  eapply le_compare; [apply cmp_rescale_l|].
  rewrite rescale_floor_signed. pose proof (scaled_den_pos x t) as HD.
  pose proof (Z.mul_div_le (scaled_num x t) _ HD). lia.
Qed.

Lemma rescale_ceiling_ge (x : Decimal) (t : Z) : le x (_rescale x t ROUND_CEILING) = true.
Proof.
  eapply le_compare; [apply cmp_rescale_r|].
  rewrite rescale_ceiling_signed. pose proof (scaled_den_pos x t) as HD.
  pose proof (Z.mul_div_le (- scaled_num x t) _ HD). lia.
Qed.

Lemma rescale_floor_half (x : Decimal) (t : Z) :
  le (_rescale x t ROUND_FLOOR) (_rescale x t ROUND_HALF_UP) = true.
Proof.
  eapply le_compare; [apply cmp_same_exp; rewrite !rescale_exp; reflexivity|].
  rewrite !signed_rescale, rescale_floor_coeff, rescale_half_up_coeff.
  pose proof (scaled_den_pos x t) as HD.
  destruct (d_sign x); cbn [andb negb]; case_leb; cbn [negb]; lia.
Qed.

Lemma rescale_half_ceiling (x : Decimal) (t : Z) :
  le (_rescale x t ROUND_HALF_UP) (_rescale x t ROUND_CEILING) = true.
Proof.
  eapply le_compare; [apply cmp_same_exp; rewrite !rescale_exp; reflexivity|].
  rewrite !signed_rescale, rescale_ceiling_coeff, rescale_half_up_coeff.
  pose proof (scaled_den_pos x t) as HD.
  destruct (d_sign x); cbn [andb negb]; case_leb; cbn [negb]; lia.
Qed.

(** A rounding helper that returns has rescaled [x] to the exponent of the
    quantum built by [scaleb]. *)
Lemma round_down_inv (x r : Decimal) (d : Z) :
  round_down x d = Ok r ->
  exists e, scaleb (Decimal_of_int 1) (- d) = Ok e /\ r = _rescale x (d_exp e) ROUND_FLOOR.
Proof.
  unfold round_down, Decimal_of_str_of. destruct (scaleb _ _) as [e|s]; cbn [rbind];
    [|discriminate].
  intros H. exists e. split; [reflexivity|]. apply quantize_inv, H.
Qed.

Lemma round_normal_inv (x r : Decimal) (d : Z) :
  round_normal x d = Ok r ->
  exists e, scaleb (Decimal_of_int 1) (- d) = Ok e /\ r = _rescale x (d_exp e) ROUND_HALF_UP.
Proof.
  unfold round_normal, Decimal_of_str_of. destruct (scaleb _ _) as [e|s]; cbn [rbind];
    [|discriminate].
  intros H. exists e. split; [reflexivity|]. apply quantize_inv, H.
Qed.

Lemma round_up_inv (x r : Decimal) (d : Z) :
  round_up x d = Ok r ->
  exists e, scaleb (Decimal_of_int 1) (- d) = Ok e /\ r = _rescale x (d_exp e) ROUND_CEILING.
Proof.
  unfold round_up, Decimal_of_str_of. destruct (scaleb _ _) as [e|s]; cbn [rbind];
    [|discriminate].
  intros H. exists e. split; [reflexivity|]. apply quantize_inv, H.
Qed.

(** Whatever the digit count, the results the helpers return bracket [x]. *)
Lemma round_results_bracket (x lo mid hi : Decimal) (d : Z) :
  round_down x d = Ok lo -> round_normal x d = Ok mid -> round_up x d = Ok hi ->
  le lo x = true /\ le x hi = true /\ le lo mid = true /\ le mid hi = true.
Proof.
  intros Hlo Hmid Hhi.
  apply round_down_inv in Hlo as (e & He & ->).
  apply round_normal_inv in Hmid as (e' & He' & ->).
  apply round_up_inv in Hhi as (e'' & He'' & ->).
  rewrite He in He', He''. injection He' as <-. injection He'' as <-.
  auto using rescale_floor_le, rescale_ceiling_ge, rescale_floor_half,
    rescale_half_ceiling.
Qed.

Lemma round_down_fits (x : Decimal) (d : Z) :
  0 <= d <= 1000026 -> fits x d -> round_down x d = Ok (_rescale x (- d) ROUND_FLOOR).
Proof.
  intros Hd Hf. unfold round_down, Decimal_of_str_of.
  rewrite scaleb_one by assumption. cbn [rbind]. apply quantize_fits; assumption.
Qed.

Lemma round_normal_fits (x : Decimal) (d : Z) :
  0 <= d <= 1000026 -> fits x d ->
  round_normal x d = Ok (_rescale x (- d) ROUND_HALF_UP).
Proof.
  intros Hd Hf. unfold round_normal, Decimal_of_str_of.
  rewrite scaleb_one by assumption. cbn [rbind]. apply quantize_fits; assumption.
Qed.

Lemma round_up_fits (x : Decimal) (d : Z) :
  0 <= d <= 1000026 -> fits x d -> round_up x d = Ok (_rescale x (- d) ROUND_CEILING).
Proof.
  intros Hd Hf. unfold round_up, Decimal_of_str_of.
  rewrite scaleb_one by assumption. cbn [rbind]. apply quantize_fits; assumption.
Qed.

End Brackets.

(** ** The rounding helpers *)

Section Rounding.

Lemma signed_coeff (x : Decimal) : Z.abs (signed x) = coeff x.
Proof. unfold signed. pose proof (coeff_nonneg x). destruct (d_sign x); lia. Qed.

(** Within the context precision the three helpers return the floor, the
    half-up rounding and the ceiling of [x * 10^d], at exponent [-d]. *)
Lemma round_values (x : Decimal) (d : Z) :
  0 <= d <= 1000026 -> fits x d ->
  exists lo mid hi,
    round_down x d = Ok lo /\ round_normal x d = Ok mid /\ round_up x d = Ok hi /\
    (d_exp lo = - d /\ d_exp mid = - d /\ d_exp hi = - d) /\
    signed lo = Qfloor (to_Q x * inject_Z (10 ^ d)) /\
    signed hi = Qceiling (to_Q x * inject_Z (10 ^ d)) /\
    coeff mid = Qfloor (Qabs (to_Q x) * inject_Z (10 ^ d) + Qmake 1 2) /\
    d_sign mid = d_sign x.
Proof.
  intros Hd Hf.
  exists (_rescale x (- d) ROUND_FLOOR), (_rescale x (- d) ROUND_HALF_UP),
    (_rescale x (- d) ROUND_CEILING).
  rewrite round_down_fits, round_normal_fits, round_up_fits by assumption.
  rewrite !rescale_exp, rescale_sign.
  rewrite Qfloor_scaled, Qceiling_scaled, Qfloor_half_scaled by lia.
  rewrite rescale_floor_signed, rescale_ceiling_signed, rescale_half_up_abs.
  repeat split; reflexivity.
Qed.

(** Whatever [quantize] returns has a coefficient of at most [prec] digits. *)
Lemma quantize_bound (x e r : Decimal) (rnd : Rounding) :
  quantize x e rnd = Ok r -> coeff r < 10 ^ prec.
Proof.
  intros H. pose proof (quantize_inv _ _ _ _ H) as ->. revert H.
  unfold quantize.
  destruct (negb _); [discriminate|].
  destruct (is_zero x) eqn:Hz.
  { intros _. unfold _rescale. rewrite Hz. cbn. apply pow10_pos. unfold prec. lia. }
  destruct (Emax <? adjusted x); [discriminate|].
  destruct (prec <? adjusted x - d_exp e + 1); [discriminate|].
  destruct (Emax <? adjusted (_rescale x (d_exp e) rnd)); [discriminate|].
  destruct (Z.ltb_spec prec (ndigits (coeff (_rescale x (d_exp e) rnd))));
    [discriminate|].
  intros _. pose proof (coeff_nonneg (_rescale x (d_exp e) rnd)) as Hc.
  destruct (Z.eq_dec (coeff (_rescale x (d_exp e) rnd)) 0) as [E|E].
  - rewrite E. apply pow10_pos. unfold prec. lia.
  - destruct (ndigits_spec (coeff (_rescale x (d_exp e) rnd)) ltac:(lia)) as [Hn [_ Hhi]].
    eapply Z.lt_le_trans; [exact Hhi|]. apply pow10_le_mono. lia.
Qed.

(** Beyond the context precision the floor or the ceiling is missing:
    [fits] is exactly the condition under which both bounds are returned. *)
Lemma round_bounds_only_when_fits (x lo hi : Decimal) (d : Z) :
  0 <= d <= 1000026 ->
  round_down x d = Ok lo -> round_up x d = Ok hi -> fits x d.
Proof.
  intros Hd Hlo Hhi. apply fits_Z; [lia|].
  unfold round_down, round_up, Decimal_of_str_of in *.
  rewrite scaleb_one in Hlo, Hhi by assumption. cbn [rbind] in *.
  pose proof (quantize_bound _ _ _ _ Hlo) as Blo.
  pose proof (quantize_bound _ _ _ _ Hhi) as Bhi.
  apply quantize_inv in Hlo, Hhi. cbn [d_exp] in *. subst lo hi.
  rewrite rescale_floor_coeff in Blo. rewrite rescale_ceiling_coeff in Bhi.
  pose proof (scaled_den_pos x (- d)) as HD.
  pose proof (Z.div_mod (Z.abs (scaled_num x (- d))) (scaled_den x (- d)) ltac:(lia)) as Hdm.
  pose proof (Z.mod_pos_bound (Z.abs (scaled_num x (- d))) (scaled_den x (- d)) HD) as Hmb.
  set (A := Z.abs (scaled_num x (- d))) in *.
  set (D := scaled_den x (- d)) in *.
  set (M := 10 ^ prec) in *.
  destruct (d_sign x), (Z.eqb_spec (A mod D) 0); cbn [andb negb] in *; nia.
Qed.

End Rounding.

(** ** Claims on helpers.py *)

Lemma to_Q_tick (t : TickSize) : (to_Q (Decimal_of_TickSize t) == tick_value t)%Q.
Proof. destruct t; reflexivity. Qed.

Lemma one_minus_tick (t : TickSize) :
  exists upper, sub (Decimal_of_int 1) (Decimal_of_TickSize t) = Ok upper /\
    (to_Q upper == 1 - tick_value t)%Q.
Proof.
  destruct t; eexists; (split; [vm_compute; reflexivity | reflexivity]).
Qed.

(** C6. For every finite decimal price and every tick size of the grid
    {0.1, 0.01, 0.001, 0.0001}, [price_valid] returns, and returns true
    exactly when tick <= price <= 1 - tick, both ends included; 0.01 and
    0.99 are valid for tick 0.01, 0.009 and 0.991 are not. *)
Theorem price_valid_iff_within_bounds (price : Decimal) (tick_size : TickSize) :
  (exists b, price_valid price tick_size = Ok b /\
     (b = true <->
      (tick_value tick_size <= to_Q price /\ to_Q price <= 1 - tick_value tick_size)%Q)) /\
  price_valid (mkDecimal false 1 (-2)) Tick_0_01 = Ok true /\
  price_valid (mkDecimal false 99 (-2)) Tick_0_01 = Ok true /\
  price_valid (mkDecimal false 9 (-3)) Tick_0_01 = Ok false /\
  price_valid (mkDecimal false 991 (-3)) Tick_0_01 = Ok false.
Proof.
  split; [|repeat split; vm_compute; reflexivity].
  unfold price_valid.
  destruct (one_minus_tick tick_size) as (upper & -> & Hupper). cbn [rbind].
  pose proof (le_Qle (Decimal_of_TickSize tick_size) price) as Hlo.
  pose proof (le_Qle price upper) as Hhi.
  rewrite to_Q_tick in Hlo. rewrite Hupper in Hhi.
  destruct (le (Decimal_of_TickSize tick_size) price) eqn:E1.
  - exists (le price upper). split; [reflexivity|].
    rewrite Hhi. intuition.
  - exists false. split; [reflexivity|].
    split; [discriminate|]. intros [H1 _]. apply Hlo in H1. discriminate.
Qed.

(** C7, as the code has it. For every finite decimal x and digit count d
    with 0 <= d <= 1000026 and |x| * 10^d <= 10^28 - 1 (the quantized
    coefficient fits the 28 digits of the decimal context), [round_down],
    [round_normal] and [round_up] return decimals with exactly d
    fractional digits whose coefficients are the floor, the half-up
    rounding (ties away from zero) and the ceiling of x * 10^d; so
    round_down(0.125, 2) = 0.12, round_up(0.125, 2) = 0.13,
    round_down(0.129, 2) = 0.12, round_up(0.121, 2) = 0.13 and
    round_normal(0.125, 2) = 0.13. *)
Theorem rounding_quantizes_within_precision (x : Decimal) (d : Z) :
  0 <= d <= 1000026 -> fits x d ->
  (exists lo mid hi,
    round_down x d = Ok lo /\ round_normal x d = Ok mid /\ round_up x d = Ok hi /\
    (d_exp lo = - d /\ d_exp mid = - d /\ d_exp hi = - d) /\
    signed lo = Qfloor (to_Q x * inject_Z (10 ^ d)) /\
    signed hi = Qceiling (to_Q x * inject_Z (10 ^ d)) /\
    coeff mid = Qfloor (Qabs (to_Q x) * inject_Z (10 ^ d) + Qmake 1 2) /\
    d_sign mid = d_sign x) /\
  round_down (mkDecimal false 125 (-3)) 2 = Ok (mkDecimal false 12 (-2)) /\
  round_up (mkDecimal false 125 (-3)) 2 = Ok (mkDecimal false 13 (-2)) /\
  round_down (mkDecimal false 129 (-3)) 2 = Ok (mkDecimal false 12 (-2)) /\
  round_up (mkDecimal false 121 (-3)) 2 = Ok (mkDecimal false 13 (-2)) /\
  round_normal (mkDecimal false 125 (-3)) 2 = Ok (mkDecimal false 13 (-2)).
Proof.
  intros Hd Hf. split; [apply round_values; assumption|].
  repeat split; vm_compute; reflexivity.
Qed.

Lemma fits_0125_2 : fits (mkDecimal false 125 (-3)) 2.
Proof. unfold fits, Qle. vm_compute. discriminate. Qed.

Lemma rounding_quantizes_within_precision_witness :
  exists lo mid hi,
    round_down (mkDecimal false 125 (-3)) 2 = Ok lo /\
    round_normal (mkDecimal false 125 (-3)) 2 = Ok mid /\
    round_up (mkDecimal false 125 (-3)) 2 = Ok hi /\
    (d_exp lo = - 2 /\ d_exp mid = - 2 /\ d_exp hi = - 2).
Proof.
  destruct (rounding_quantizes_within_precision (mkDecimal false 125 (-3)) 2
              ltac:(lia) fits_0125_2) as [(lo & mid & hi & H1 & H2 & H3 & H4 & _) _].
  exists lo, mid, hi. auto.
Defined.

(** C7 as stated fails: one rounded to 28 fractional digits needs 29
    digits, and [quantize] raises InvalidOperation. *)
Lemma round_down_exceeds_precision :
  round_down (mkDecimal false 1 0) 28 = Raise InvalidOperation /\
  ~ exists r, round_down (mkDecimal false 1 0) 28 = Ok r /\ d_exp r = - 28.
Proof.
  assert (E : round_down (mkDecimal false 1 0) 28 = Raise InvalidOperation)
    by (vm_compute; reflexivity).
  split; [exact E|]. intros (r & Hr & _). rewrite E in Hr. discriminate.
Qed.

(** C10, as the code has it. For every finite decimal x and every digit
    count d, whenever the three helpers return,
    round_down(x, d) <= x <= round_up(x, d) and
    round_down(x, d) <= round_normal(x, d) <= round_up(x, d); and they do
    return whenever 0 <= d <= 1000026 and |x| * 10^d <= 10^28 - 1. *)
Theorem rounding_brackets_input (x : Decimal) (d : Z) :
  (forall lo mid hi,
     round_down x d = Ok lo -> round_normal x d = Ok mid -> round_up x d = Ok hi ->
     (to_Q lo <= to_Q x)%Q /\ (to_Q x <= to_Q hi)%Q /\
     (to_Q lo <= to_Q mid)%Q /\ (to_Q mid <= to_Q hi)%Q) /\
  (0 <= d <= 1000026 -> fits x d ->
   exists lo mid hi,
     round_down x d = Ok lo /\ round_normal x d = Ok mid /\ round_up x d = Ok hi).
Proof.
  split.
  - intros lo mid hi Hlo Hmid Hhi.
    destruct (round_results_bracket x lo mid hi d Hlo Hmid Hhi) as (B1 & B2 & B3 & B4).
    rewrite <- !le_Qle. auto.
  - intros Hd Hf.
    destruct (round_values x d Hd Hf) as (lo & mid & hi & Hlo & Hmid & Hhi & _).
    exists lo, mid, hi. auto.
Qed.

Lemma fits_neg_0125_2 : fits (mkDecimal true 125 (-3)) 2.
Proof. unfold fits, Qle. vm_compute. discriminate. Qed.

Lemma rounding_brackets_input_witness :
  (exists lo mid hi,
     round_down (mkDecimal true 125 (-3)) 2 = Ok lo /\
     round_normal (mkDecimal true 125 (-3)) 2 = Ok mid /\
     round_up (mkDecimal true 125 (-3)) 2 = Ok hi /\
     (to_Q lo <= to_Q (mkDecimal true 125 (-3)))%Q /\
     (to_Q (mkDecimal true 125 (-3)) <= to_Q hi)%Q /\
     (to_Q lo <= to_Q mid)%Q /\ (to_Q mid <= to_Q hi)%Q) /\
  (exists lo mid hi,
     round_down (mkDecimal false 0 0) 1000027 = Ok lo /\
     round_normal (mkDecimal false 0 0) 1000027 = Ok mid /\
     round_up (mkDecimal false 0 0) 1000027 = Ok hi /\
     (to_Q lo <= to_Q (mkDecimal false 0 0))%Q /\
     (to_Q (mkDecimal false 0 0) <= to_Q hi)%Q /\
     (to_Q lo <= to_Q mid)%Q /\ (to_Q mid <= to_Q hi)%Q).
Proof.
  split.
  - destruct (rounding_brackets_input (mkDecimal true 125 (-3)) 2) as [Hb Hr].
    destruct (Hr ltac:(lia) fits_neg_0125_2) as (lo & mid & hi & Hlo & Hmid & Hhi).
    exists lo, mid, hi. pose proof (Hb lo mid hi Hlo Hmid Hhi). tauto.
  - destruct (rounding_brackets_input (mkDecimal false 0 0) 1000027) as [Hb _].
    exists (mkDecimal false 0 (-1000026)), (mkDecimal false 0 (-1000026)),
      (mkDecimal false 0 (-1000026)).
    assert (Hlo : round_down (mkDecimal false 0 0) 1000027 = Ok (mkDecimal false 0 (-1000026)))
      by (vm_compute; reflexivity).
    assert (Hmid : round_normal (mkDecimal false 0 0) 1000027 = Ok (mkDecimal false 0 (-1000026)))
      by (vm_compute; reflexivity).
    assert (Hhi : round_up (mkDecimal false 0 0) 1000027 = Ok (mkDecimal false 0 (-1000026)))
      by (vm_compute; reflexivity).
    pose proof (Hb _ _ _ Hlo Hmid Hhi). tauto.
Defined.

(** C10 as stated fails where a helper raises: there is no lower bound
    round_down(1, 28) to compare with. *)
Lemma rounding_brackets_need_precision :
  ~ exists lo hi,
      round_down (mkDecimal false 1 0) 28 = Ok lo /\
      round_up (mkDecimal false 1 0) 28 = Ok hi /\
      le lo (mkDecimal false 1 0) = true /\ le (mkDecimal false 1 0) hi = true.
Proof.
  intros (lo & hi & Hlo & _).
  assert (E : round_down (mkDecimal false 1 0) 28 = Raise InvalidOperation)
    by (vm_compute; reflexivity).
  rewrite E in Hlo. discriminate.
Qed.

(** C5. For two snapshots that differ at most in their stored hash,
    [generate_orderbook_summary_hash] gives the same outcome: the SHA-1 hex
    digest of the serialization of the snapshot with its hash field empty
    (or the exception of the serializer).  When the call returns a digest
    the snapshot is what it was before the call, its hash field included;
    when the serializer raises the snapshot is left with an empty hash.
    Calling the function again on the snapshot gives the same outcome. *)
Theorem orderbook_hash_ignores_stored_hash
    (model_dump_json : OrderBookSummary -> result serialization_error string)
    (sha1_hexdigest : string -> string)
    (orderbook other : OrderBookSummary) :
  book_market other = book_market orderbook ->
  book_asset_id other = book_asset_id orderbook ->
  book_bids other = book_bids orderbook ->
  book_asks other = book_asks orderbook ->
  let hash_of := generate_orderbook_summary_hash model_dump_json sha1_hexdigest in
  let cleared :=
    mkOrderBookSummary (book_market orderbook) (book_asset_id orderbook)
      (book_bids orderbook) (book_asks orderbook) "" in
  (hash_of orderbook).1 =
    match model_dump_json cleared with
    | Ok dumped => Ok (sha1_hexdigest dumped)
    | Raise e => Raise e
    end /\
  (hash_of other).1 = (hash_of orderbook).1 /\
  (forall digest, (hash_of orderbook).1 = Ok digest ->
     (hash_of orderbook).2 = orderbook /\
     book_hash (hash_of orderbook).2 = book_hash orderbook) /\
  (forall e, (hash_of orderbook).1 = Raise e -> (hash_of orderbook).2 = cleared) /\
  (hash_of (hash_of orderbook).2).1 = (hash_of orderbook).1.
Proof.
  destruct orderbook as [m a b k h], other as [m' a' b' k' h'].
  cbn [book_market book_asset_id book_bids book_asks].
  intros -> -> -> ->. cbv zeta.
  unfold generate_orderbook_summary_hash, set_hash.
  cbn [book_market book_asset_id book_bids book_asks book_hash].
  destruct (model_dump_json (mkOrderBookSummary m a b k "")) as [dumped|e] eqn:E;
    cbn [fst snd book_market book_asset_id book_bids book_asks book_hash];
    rewrite ?E; cbn [fst snd].
  - repeat split; try reflexivity. discriminate.
  - repeat split; try reflexivity; discriminate.
Qed.

Lemma orderbook_hash_ignores_stored_hash_witness :
  let dump := fun o : OrderBookSummary =>
    Ok (book_market o +:+ "/" +:+ book_asset_id o +:+ "/" +:+ book_hash o) in
  let sha := fun text : string => "sha1:" +:+ text in
  let served := mkOrderBookSummary "0xabc" "42" [] [] "f00d" in
  let local := mkOrderBookSummary "0xabc" "42" [] [] "" in
  (generate_orderbook_summary_hash dump sha local).1 =
    (generate_orderbook_summary_hash dump sha served).1 /\
  (generate_orderbook_summary_hash dump sha served).2 = served.
Proof.
  intros dump sha served local.
  destruct (orderbook_hash_ignores_stored_hash dump sha served local
              eq_refl eq_refl eq_refl eq_refl) as (H1 & H2 & H3 & _).
  split; [exact H2|].
  exact (proj1 (H3 _ H1)).
Defined.

(** ** Claims on websockets_client.py *)

Section Loops.

Context `{Library}.

Lemma bind_ok {A B} (m : io A) (k : A -> io B) (a : A) :
  m.2 = Ok a -> bind m k = (m.1 ++ (k a).1, (k a).2).
Proof. destruct m as [out r]. cbn. intros ->. destruct (k a). reflexivity. Qed.

Lemma for_each_ok {A} (body : A -> io unit) (l : list A) :
  (forall x, (body x).2 = Ok tt) -> (for_each l body).2 = Ok tt.
Proof.
  intros Hbody. induction l as [|x rest IH]; [reflexivity|].
  cbn [for_each]. rewrite (bind_ok _ _ tt) by apply Hbody. exact IH.
Qed.

Lemma for_each_app_out {A} (body : A -> io unit) (l1 l2 : list A) :
  (forall x, (body x).2 = Ok tt) ->
  (for_each (l1 ++ l2) body).1 = (for_each l1 body).1 ++ (for_each l2 body).1.
Proof.
  intros Hbody. induction l1 as [|x rest IH]; [reflexivity|].
  cbn [for_each app]. rewrite !(bind_ok _ _ tt) by apply Hbody.
  cbn [fst]. rewrite IH, app_assoc. reflexivity.
Qed.

(** No frame makes the body of the receive loop raise. *)
Lemma on_message_ok (process_event : EventWrapper -> io unit) (message : string) :
  (on_message process_event message).2 = Ok tt.
Proof.
  unfold on_message, try_except, bind, lift, print, emit.
  destruct (json_loads message) as [data|e].
  - destruct (process_event (EventWrapper_init data)) as [out [[]|e]]; [reflexivity|].
    destruct e; reflexivity.
  - destruct e; reflexivity.
Qed.

(** A turn of the reconnect loop reports whatever was raised and goes on. *)
Lemma turn_ok (name url handshake : string) (process_event : EventWrapper -> io unit)
    (s : session) :
  (turn name url handshake process_event s).2 = Ok tt.
Proof.
  unfold turn, try_except.
  destruct (connect url s >>> send handshake s >>> listen process_event s)
    as [out [[]|e]]; reflexivity.
Qed.

Lemma market_socket_running (token_ids : list string) (flag : bool)
    (process_event : EventWrapper -> io unit) (script : list session) :
  (market_socket token_ids flag process_event script).2 = Ok tt.
Proof. apply for_each_ok. intros s. apply turn_ok. Qed.

Lemma listen_out (process_event : EventWrapper -> io unit) (frames : list string)
    (closing : option exn) :
  (listen process_event (Receives frames closing)).1 =
    (for_each frames (on_message process_event)).1.
Proof.
  unfold listen. rewrite (bind_ok _ _ tt) by (apply for_each_ok, on_message_ok).
  destruct closing; cbn; apply app_nil_r.
Qed.

Lemma for_each_app_full {A} (body : A -> io unit) (l1 l2 : list A) :
  (forall x, (body x).2 = Ok tt) ->
  for_each (l1 ++ l2) body = ((for_each l1 body).1 ++ (for_each l2 body).1, Ok tt).
Proof.
  intros Hbody.
  rewrite <- (for_each_app_out body l1 l2 Hbody).
  rewrite <- (for_each_ok body (l1 ++ l2) Hbody).
  destruct (for_each (l1 ++ l2) body). reflexivity.
Qed.

(** The trace of a turn in which the connection is made and the handshake
    sent. *)
Lemma turn_receives (name url handshake : string)
    (process_event : EventWrapper -> io unit) (frames : list string)
    (closing : option exn) :
  turn name url handshake process_event (Receives frames closing) =
    (Connect url :: Send handshake ::
       (for_each frames (on_message process_event)).1 ++ connection_report name closing,
     Ok tt).
Proof.
  unfold turn, connect, send, listen, connection_report.
  pose proof (for_each_ok (on_message process_event) frames
                (on_message_ok process_event)) as Hok.
  destruct (for_each frames (on_message process_event)) as [out r].
  cbn [fst snd] in *. subst r.
  destruct closing as [e|]; cbn; rewrite ?app_nil_r; reflexivity.
Qed.

End Loops.

(** C8. A frame that fails to parse, or on which the handler raises, is
    reported, and nothing else happens to the channel: in the trace of
    [market_socket] the report is followed by the handling of the frames
    that arrive after it on the same connection (no reconnect, no sleep),
    the connection goes on until the transport ends it, the later turns
    follow, and the coroutine is still running at the end. *)
Theorem bad_frame_reported_loop_continues `{Library}
    (token_ids : list string) (custom_feature_enabled : bool)
    (process_event : EventWrapper -> io unit)
    (before after : list string) (message : string) (closing : option exn)
    (earlier later : list session) (out : list action) (e : exn) :
  (json_loads message = Raise e /\ out = []) \/
  (exists data, json_loads message = Ok data /\
                process_event (EventWrapper_init data) = (out, Raise e)) ->
  on_message process_event message = (out ++ [failure_report message e], Ok tt) /\
  (listen process_event (Receives (before ++ message :: after) closing)).1 =
    (listen process_event (Receives before closing)).1 ++
    (out ++ [failure_report message e]) ++
    (listen process_event (Receives after closing)).1 /\
  market_socket token_ids custom_feature_enabled process_event
      (earlier ++ Receives (before ++ message :: after) closing :: later) =
    ((market_socket token_ids custom_feature_enabled process_event earlier).1 ++
     [Connect url_market; Send (market_handshake token_ids custom_feature_enabled)] ++
     (for_each before (on_message process_event)).1 ++
     (out ++ [failure_report message e]) ++
     (for_each after (on_message process_event)).1 ++
     connection_report "Market socket" closing ++
     (market_socket token_ids custom_feature_enabled process_event later).1,
     Ok tt).
Proof.
  intros Hfail.
  assert (Hmsg : on_message process_event message =
                 (out ++ [failure_report message e], Ok tt)).
  { unfold on_message, try_except, bind, lift, failure_report, print, emit.
    destruct Hfail as [[-> ->]|(data & -> & ->)]; destruct e; reflexivity. }
  assert (Hframes : (for_each (before ++ message :: after) (on_message process_event)).1 =
                    (for_each before (on_message process_event)).1 ++
                    (out ++ [failure_report message e]) ++
                    (for_each after (on_message process_event)).1).
  { rewrite for_each_app_out by apply on_message_ok.
    f_equal. cbn [for_each].
    rewrite (bind_ok _ _ tt) by apply on_message_ok.
    rewrite Hmsg. reflexivity. }
  split; [exact Hmsg|]. split.
  - rewrite !listen_out. exact Hframes.
  - unfold market_socket.
    rewrite for_each_app_full by (intros s; apply turn_ok). f_equal. f_equal.
    cbn [for_each]. rewrite (bind_ok _ _ tt) by apply turn_ok.
    rewrite turn_receives. cbn [fst snd]. rewrite Hframes.
    unfold market_handshake. cbn [app]. rewrite <- !app_assoc. reflexivity.
Qed.

Lemma bad_frame_reported_loop_continues_witness :
  let L := sample_library in
  @market_socket L ["token"] false (@_process_market_event L)
      ([ConnectRaises (TransportError "refused")] ++
       Receives (["[]"] ++ "oops" :: ["{}"]) None :: [Receives [] None]) =
    ((@market_socket L ["token"] false (@_process_market_event L)
        [ConnectRaises (TransportError "refused")]).1 ++
     [Connect url_market; Send (@market_handshake L ["token"] false)] ++
     (for_each ["[]"] (@on_message L (@_process_market_event L))).1 ++
     ([] ++ [@failure_report L "oops" JSONDecodeError]) ++
     (for_each ["{}"] (@on_message L (@_process_market_event L))).1 ++
     @connection_report L "Market socket" None ++
     (@market_socket L ["token"] false (@_process_market_event L) [Receives [] None]).1,
     Ok tt).
Proof.
  intros L. apply (@bad_frame_reported_loop_continues L).
  left. split; reflexivity.
Defined.

(** C1, on the code: a Market array whose first element lacks
    [event_type] makes the handler raise AttributeError (the [except]
    clause reads [item.text] on a dict).  Nothing is printed: no validation
    report for the first element, and the two elements behind it are never
    decoded. *)
Theorem market_array_malformed_item_stops_burst `{Library} (book1 book2 : JSON) :
  _process_market_event (EventWrapper_init (JList [JDict ∅; book1; book2])) =
    ([], Raise (AttributeError "text")).
Proof.
  unfold _process_market_event, EventWrapper_init. cbn [json text for_each].
  unfold print_event at 1. unfold construct, event_type_errors.
  rewrite lookup_empty. cbn [event_type_optional app].
  reflexivity.
Qed.

(** C2, on the code: a User frame whose [event_type] is neither "order"
    nor "trade" falls through the [match] of [_process_user_event], which
    prints nothing and returns; the Market handler prints such a frame. *)
Theorem user_unknown_event_type_dropped `{Library} :
  let message := JDict (<["event_type" := JStr "heartbeat"]> ∅) in
  _process_user_event (EventWrapper_init message) = ([], Ok tt) /\
  _process_market_event (EventWrapper_init message) = ([Printed (PJson message)], Ok tt).
Proof.
  cbv zeta.
  unfold _process_user_event, _process_market_event, EventWrapper_init, subscript.
  cbn [json text]. rewrite lookup_insert_eq. split; reflexivity.
Qed.

Example market_array_malformed_last :
  let L := sample_library in
  let book := JDict (<["event_type" := JStr "book"]> ∅) in
  @_process_market_event L (@EventWrapper_init L (JList [book; book; JDict ∅])) =
    ([Printed (PEvent (mkEvent OrderBookSummaryEvent (<["event_type" := JStr "book"]> ∅)));
      Printed (PEvent (mkEvent OrderBookSummaryEvent (<["event_type" := JStr "book"]> ∅)))],
     Raise (AttributeError "text")).
Proof. vm_compute. reflexivity. Qed.

(** ** The LiveData handshake *)

Section LiveData.

Context `{Library}.

Lemma eq_str_spec (v : JSON) (s : string) : eq_str v s = true <-> v = JStr s.
Proof.
  destruct v; cbn; try (split; [discriminate|intros [=]]).
  rewrite String.eqb_eq. split; [intros ->; reflexivity|intros [= ->]; reflexivity].
Qed.

Lemma is_clob_user_spec (h : store) (sub : loc) :
  is_clob_user h sub = true <-> deref h sub !! "topic" = Some (JStr "clob_user").
Proof.
  unfold is_clob_user. destruct (deref h sub !! "topic") as [v|].
  - rewrite eq_str_spec. split; [intros ->; reflexivity|intros [= ->]; reflexivity].
  - split; discriminate.
Qed.

Lemma needs_auth_spec (h : store) (subscriptions : list loc) :
  needs_auth h subscriptions = true <->
  exists sub, sub ∈ subscriptions /\ is_clob_user h sub = true.
Proof.
  induction subscriptions as [|sub rest IH]; cbn [needs_auth].
  - split; [discriminate|]. intros (sub & Hin & _). inversion Hin.
  - destruct (is_clob_user h sub) eqn:E.
    + split; [|reflexivity]. intros _. exists sub. split; [left|exact E].
    + rewrite IH. split.
      * intros (s & Hin & Hs). exists s. split; [right; exact Hin|exact Hs].
      * intros (s & Hin & Hs). apply elem_of_cons in Hin as [->|Hin].
        -- congruence.
        -- exists s. auto.
Qed.



Lemma fresh_unallocated (h : store) : h !! fresh (dom h) = None.
Proof. apply not_elem_of_dom, is_fresh. Qed.

(** Copying a dict and storing a key in the copy leaves one new object. *)
Lemma copy_setitem (h : store) (sub : loc) (key : string) (value : JSON) :
  dict_setitem (dict_copy h sub).2 (dict_copy h sub).1 key value =
    <[fresh (dom h) := <[key := value]> (deref h sub)]> h.
Proof.
  unfold dict_setitem, dict_copy. cbn [fst snd].
  unfold deref at 1. rewrite lookup_insert_eq. cbn [default].
  apply insert_insert_eq.
Qed.


(** The store never loses or changes an object during the set-up. *)
Lemma with_creds_extends (creds : ApiCreds) (subscriptions : list loc) :
  forall (acc : list loc) (h : store), h ⊆ (with_creds creds subscriptions acc h).2.
Proof.
  induction subscriptions as [|sub rest IH]; intros acc h; cbn [with_creds].
  - reflexivity.
  - destruct (is_clob_user h sub).
    + pose proof (copy_setitem h sub "clob_auth" (model_dump creds)) as Hcs.
      destruct (dict_copy h sub) as [sub_copy h1]. cbn [fst snd] in Hcs. rewrite Hcs.
      etrans; [|apply IH]. apply insert_subseteq, fresh_unallocated.
    + apply IH.
Qed.

Lemma live_data_payload_extends (subscriptions : list loc) (creds : option ApiCreds)
    (h : store) :
  h ⊆ (live_data_payload subscriptions creds h).2.
Proof.
  unfold live_data_payload.
  destruct (needs_auth h subscriptions); [|reflexivity].
  destruct creds as [creds|]; [|reflexivity].
  pose proof (with_creds_extends creds subscriptions [] h) as Hext.
  destruct (with_creds creds subscriptions [] h). exact Hext.
Qed.

Lemma live_data_socket_store (subscriptions : list loc)
    (process_event : EventWrapper -> io unit) (creds : option ApiCreds)
    (script : list session) (h : store) :
  (live_data_socket subscriptions process_event creds script h).2 =
    (live_data_payload subscriptions creds h).2.
Proof.
  unfold live_data_socket.
  destruct (live_data_payload subscriptions creds h) as [[p|e] h']; reflexivity.
Qed.

End LiveData.

(** C3. With a clob_user entry in the list and no credentials,
    [live_data_socket] raises AuthenticationRequiredError having done
    nothing: no connection is attempted.  And whenever [live_data_socket]
    raises, it is that error, raised for that reason, before any action. *)
Theorem live_data_requires_credentials `{Library}
    (subscriptions : list loc) (process_event : EventWrapper -> io unit)
    (script : list session) (h : store) :
  (exists sub, sub ∈ subscriptions /\ deref h sub !! "topic" = Some (JStr "clob_user")) ->
  live_data_socket subscriptions process_event None script h =
    (([], Raise (AuthenticationRequiredError credentials_required)), h) /\
  (forall subscriptions' process_event' creds' script' h' e,
     (live_data_socket subscriptions' process_event' creds' script' h').1.2 = Raise e ->
     e = AuthenticationRequiredError credentials_required /\
     creds' = None /\
     needs_auth h' subscriptions' = true /\
     (live_data_socket subscriptions' process_event' creds' script' h').1.1 = []).
Proof.
  intros (sub & Hin & Htopic). split.
  - unfold live_data_socket, live_data_payload.
    replace (needs_auth h subscriptions) with true; [reflexivity|].
    symmetry. apply needs_auth_spec. exists sub. split; [exact Hin|].
    apply is_clob_user_spec, Htopic.
  - intros subs' pe' creds' script' h' e.
    unfold live_data_socket, live_data_payload.
    destruct (needs_auth h' subs') eqn:Hneeds.
    + destruct creds' as [c|].
      * destruct (with_creds c subs' [] h') as [subs'' h''].
        cbn [fst snd]. rewrite (for_each_ok _ script') by (intros s; apply turn_ok).
        discriminate.
      * cbn. intros [= <-]. auto.
    + cbn [fst snd]. rewrite (for_each_ok _ script') by (intros s; apply turn_ok).
      discriminate.
Qed.

Lemma live_data_requires_credentials_witness :
  let L := sample_library in
  let h : store := <[1%positive := <["topic" := JStr "clob_user"]> ∅]> ∅ in
  @live_data_socket L [1%positive] (@_process_user_event L) None
      [Receives ["{}"] None] h =
    (([], Raise (AuthenticationRequiredError credentials_required)), h).
Proof.
  intros L h.
  apply (@live_data_requires_credentials L [1%positive] (@_process_user_event L)
           [Receives ["{}"] None] h).
  exists 1%positive. split; [apply list_elem_of_here|]. vm_compute. reflexivity.
Defined.



(** C9. [live_data_socket] changes no dict that exists when it is called:
    the credentials go into copies, so each of the caller's subscription
    dicts is afterwards what it was before. *)
Theorem live_data_socket_preserves_caller_dicts `{Library}
    (subscriptions : list loc) (process_event : EventWrapper -> io unit)
    (creds : option ApiCreds) (script : list session) (h : store)
    (l : loc) (d : gmap string JSON) :
  h !! l = Some d ->
  (live_data_socket subscriptions process_event creds script h).2 !! l = Some d /\
  deref (live_data_socket subscriptions process_event creds script h).2 l !! "clob_auth" =
    d !! "clob_auth".
Proof.
  intros Hl. rewrite live_data_socket_store.
  pose proof (live_data_payload_extends subscriptions creds h) as Hext.
  pose proof (lookup_weaken _ _ _ _ Hl Hext) as Hl'.
  split; [exact Hl'|]. unfold deref. rewrite Hl'. reflexivity.
Qed.

Lemma live_data_socket_preserves_caller_dicts_witness :
  let L := sample_library in
  let d : gmap string JSON := <["topic" := JStr "clob_user"]> ∅ in
  let h : store := <[1%positive := d]> ∅ in
  (@live_data_socket L [1%positive] (@_process_user_event L) (Some ("k", "s", "p"))
     [Receives ["{}"] None] h).2 !! 1%positive = Some d /\
  deref (@live_data_socket L [1%positive] (@_process_user_event L) (Some ("k", "s", "p"))
     [Receives ["{}"] None] h).2 1%positive !! "clob_auth" = d !! "clob_auth".
Proof.
  intros L d h.
  apply (@live_data_socket_preserves_caller_dicts L).
  apply lookup_insert_eq.
Defined.

(** * Further properties of helpers.py *)

Section MoreRounding.

(** A decimal at exponent [-d] is its coefficient over [10^d]. *)
Lemma to_Q_at_exp (r : Decimal) (d : Z) :
  0 <= d -> d_exp r = - d -> to_Q r = Qmake (signed r) (Z.to_pos (10 ^ d)).
Proof.
  intros Hd He. unfold to_Q. rewrite He.
  rewrite Z.max_r by lia. rewrite Z.opp_involutive, Z.max_l by lia.
  change (10 ^ 0) with 1. rewrite Z.mul_1_r. reflexivity.
Qed.

Lemma rescale_same_exp (r : Decimal) (rnd : Rounding) : _rescale r (d_exp r) rnd = r.
Proof.
  unfold _rescale, is_zero, coeff. destruct r as [s c e]. cbn [d_sign d_int d_exp].
  destruct (Z.eqb_spec (Z.of_N c) 0) as [Hz|Hnz].
  - f_equal. lia.
  - rewrite Z.leb_refl, Z.sub_diag. change (10 ^ 0) with 1.
    rewrite Z.mul_1_r, N2Z.id. reflexivity.
Qed.

Lemma fits_of_bound (r : Decimal) (d : Z) :
  0 <= d -> d_exp r = - d -> coeff r < 10 ^ prec -> fits r d.
Proof.
  intros Hd He Hb. apply fits_Z; [assumption|].
  unfold scaled_num, scaled_den. rewrite He.
  rewrite !Z.sub_diag, Z.max_id. change (10 ^ 0) with 1.
  rewrite Z.mul_1_r, signed_coeff. lia.
Qed.

Lemma round_down_bound (x r : Decimal) (d : Z) :
  0 <= d <= 1000026 -> round_down x d = Ok r -> d_exp r = - d /\ coeff r < 10 ^ prec.
Proof.
  intros Hd H. unfold round_down, Decimal_of_str_of in H.
  rewrite scaleb_one in H by assumption. cbn [rbind] in H.
  split; [|eapply quantize_bound, H].
  apply quantize_inv in H. subst r. apply rescale_exp.
Qed.

Lemma round_normal_bound (x r : Decimal) (d : Z) :
  0 <= d <= 1000026 -> round_normal x d = Ok r -> d_exp r = - d /\ coeff r < 10 ^ prec.
Proof.
  intros Hd H. unfold round_normal, Decimal_of_str_of in H.
  rewrite scaleb_one in H by assumption. cbn [rbind] in H.
  split; [|eapply quantize_bound, H].
  apply quantize_inv in H. subst r. apply rescale_exp.
Qed.

Lemma round_up_bound (x r : Decimal) (d : Z) :
  0 <= d <= 1000026 -> round_up x d = Ok r -> d_exp r = - d /\ coeff r < 10 ^ prec.
Proof.
  intros Hd H. unfold round_up, Decimal_of_str_of in H.
  rewrite scaleb_one in H by assumption. cbn [rbind] in H.
  split; [|eapply quantize_bound, H].
  apply quantize_inv in H. subst r. apply rescale_exp.
Qed.

(** A value that already has exactly [d] fractional digits is returned as
    it is by each of the three helpers. *)
Lemma round_fixed_point (r : Decimal) (d : Z) :
  0 <= d <= 1000026 -> d_exp r = - d -> coeff r < 10 ^ prec ->
  round_down r d = Ok r /\ round_normal r d = Ok r /\ round_up r d = Ok r.
Proof.
  intros Hd He Hb.
  pose proof (fits_of_bound r d ltac:(lia) He Hb) as Hf.
  rewrite round_down_fits, round_normal_fits, round_up_fits by assumption.
  rewrite <- He, !rescale_same_exp. auto.
Qed.

(** X1. What any of the three rounding helpers returns is a fixed point of
    all three at the same digit count, and [decimal_places] of it is that
    digit count. *)
Theorem rounded_value_is_stable (x r : Decimal) (d : Z) :
  0 <= d <= 1000026 ->
  round_down x d = Ok r \/ round_normal x d = Ok r \/ round_up x d = Ok r ->
  round_down r d = Ok r /\ round_normal r d = Ok r /\ round_up r d = Ok r /\
  decimal_places r = d.
Proof.
  intros Hd H.
  assert (Hr : d_exp r = - d /\ coeff r < 10 ^ prec).
  { destruct H as [H|[H|H]];
      eauto using round_down_bound, round_normal_bound, round_up_bound. }
  destruct Hr as [He Hb].
  destruct (round_fixed_point r d Hd He Hb) as (H1 & H2 & H3).
  repeat split; try assumption.
  unfold decimal_places, Decimal_of_str_of. rewrite He. lia.
Qed.

Lemma rounded_value_is_stable_witness :
  let r := mkDecimal false 12 (-2) in
  round_down r 2 = Ok r /\ round_normal r 2 = Ok r /\ round_up r 2 = Ok r /\
  decimal_places r = 2.
Proof.
  intros r.
  apply (rounded_value_is_stable (mkDecimal false 129 (-3)) r 2); [lia|].
  left. vm_compute. reflexivity.
Defined.

End MoreRounding.

Section RoundingOrder.

Lemma inject_Z_pow10_pos (d : Z) : 0 <= d -> (0 < inject_Z (10 ^ d))%Q.
Proof.
  intros Hd. unfold Qlt, inject_Z. cbn [Qnum Qden].
  pose proof (pow10_pos d Hd). lia.
Qed.

Lemma le_same_exp (a b : Decimal) :
  d_exp a = d_exp b -> (le a b = true <-> signed a <= signed b).
Proof.
  intros E. unfold le. rewrite (cmp_same_exp a b E).
  destruct (Z.compare_spec (signed a) (signed b)); split; intros;
    try reflexivity; try lia; discriminate.
Qed.

(** X2. [round_down] and [round_up] are monotone: within the context
    precision, x <= y gives round_down(x, d) <= round_down(y, d) and
    round_up(x, d) <= round_up(y, d). *)
Theorem rounding_is_monotone (x y : Decimal) (d : Z) :
  0 <= d <= 1000026 -> fits x d -> fits y d -> le x y = true ->
  exists lox loy hix hiy,
    round_down x d = Ok lox /\ round_down y d = Ok loy /\
    round_up x d = Ok hix /\ round_up y d = Ok hiy /\
    le lox loy = true /\ le hix hiy = true.
Proof.
  intros Hd Hfx Hfy Hle.
  destruct (round_values x d Hd Hfx)
    as (lox & _ & hix & Hlx & _ & Hhx & (Elx & _ & Ehx) & Sx & Cx & _).
  destruct (round_values y d Hd Hfy)
    as (loy & _ & hiy & Hly & _ & Hhy & (Ely & _ & Ehy) & Sy & Cy & _).
  exists lox, loy, hix, hiy. repeat split; try assumption.
  - apply le_same_exp; [congruence|]. rewrite Sx, Sy. apply Qfloor_resp_le.
    apply Qmult_le_compat_r; [apply le_Qle, Hle|].
    apply Qlt_le_weak, inject_Z_pow10_pos. lia.
  - apply le_same_exp; [congruence|]. rewrite Cx, Cy. apply Qceiling_resp_le.
    apply Qmult_le_compat_r; [apply le_Qle, Hle|].
    apply Qlt_le_weak, inject_Z_pow10_pos. lia.
Qed.

Lemma rounding_is_monotone_witness :
  exists lox loy hix hiy,
    round_down (mkDecimal true 125 (-3)) 2 = Ok lox /\
    round_down (mkDecimal false 129 (-3)) 2 = Ok loy /\
    round_up (mkDecimal true 125 (-3)) 2 = Ok hix /\
    round_up (mkDecimal false 129 (-3)) 2 = Ok hiy /\
    le lox loy = true /\ le hix hiy = true.
Proof.
  apply (rounding_is_monotone (mkDecimal true 125 (-3)) (mkDecimal false 129 (-3)) 2).
  - lia.
  - unfold fits, Qle. vm_compute. discriminate.
  - unfold fits, Qle. vm_compute. discriminate.
  - vm_compute. reflexivity.
Defined.

(** X3. The results of [round_up] and [round_down] are at most one unit of
    the last place apart, and they coincide exactly when [round_down]
    returns the value of x. *)
Theorem round_up_down_one_unit_apart (x : Decimal) (d : Z) :
  0 <= d <= 1000026 -> fits x d ->
  exists lo hi,
    round_down x d = Ok lo /\ round_up x d = Ok hi /\
    0 <= signed hi - signed lo <= 1 /\
    (signed hi = signed lo <-> (to_Q lo == to_Q x)%Q).
Proof.
  intros Hd Hf.
  exists (_rescale x (- d) ROUND_FLOOR), (_rescale x (- d) ROUND_CEILING).
  rewrite round_down_fits, round_up_fits by assumption.
  split; [reflexivity|]. split; [reflexivity|].
  assert (Hval : (to_Q (_rescale x (- d) ROUND_FLOOR) == to_Q x)%Q <->
                 signed (_rescale x (- d) ROUND_FLOOR) * scaled_den x (- d) =
                 scaled_num x (- d)).
  { split; intros E.
    - assert (L1 : le (_rescale x (- d) ROUND_FLOOR) x = true)
        by (apply le_Qle; rewrite E; apply Qle_refl).
      assert (L2 : le x (_rescale x (- d) ROUND_FLOOR) = true)
        by (apply le_Qle; rewrite E; apply Qle_refl).
      unfold le in L1, L2. rewrite cmp_rescale_l in L1. rewrite cmp_rescale_r in L2.
      destruct (Z.compare_spec (signed (_rescale x (- d) ROUND_FLOOR) * scaled_den x (- d))
                  (scaled_num x (- d))); [assumption|..].
      + destruct (Z.compare_spec (scaled_num x (- d))
                    (signed (_rescale x (- d) ROUND_FLOOR) * scaled_den x (- d)));
          try lia; discriminate.
      + discriminate.
    - apply Qle_antisym; apply le_Qle; unfold le.
      + rewrite cmp_rescale_l, E, Z.compare_refl. reflexivity.
      + rewrite cmp_rescale_r, E, Z.compare_refl. reflexivity. }
  rewrite Hval.
  rewrite !signed_rescale, rescale_floor_coeff, rescale_ceiling_coeff.
  pose proof (scaled_num_sign x (- d)) as HN.
  pose proof (scaled_den_pos x (- d)) as HD.
  pose proof (Z.div_mod (Z.abs (scaled_num x (- d))) (scaled_den x (- d)) ltac:(lia)) as Hdm.
  pose proof (Z.mod_pos_bound (Z.abs (scaled_num x (- d))) (scaled_den x (- d)) HD) as Hmb.
  set (A := Z.abs (scaled_num x (- d))) in *.
  set (D := scaled_den x (- d)) in *.
  destruct (d_sign x), (Z.eqb_spec (A mod D) 0); cbn [andb negb]; nia.
Qed.

Lemma round_up_down_one_unit_apart_witness :
  exists lo hi,
    round_down (mkDecimal false 125 (-3)) 2 = Ok lo /\
    round_up (mkDecimal false 125 (-3)) 2 = Ok hi /\
    0 <= signed hi - signed lo <= 1 /\
    (signed hi = signed lo <-> (to_Q lo == to_Q (mkDecimal false 125 (-3)))%Q).
Proof.
  apply (round_up_down_one_unit_apart (mkDecimal false 125 (-3)) 2); [lia|].
  unfold fits, Qle. vm_compute. discriminate.
Defined.

(** X4. [round_normal] returns a nearest value: its coefficient is within
    half a unit of the last place of x * 10^d. *)
Theorem round_normal_is_nearest (x : Decimal) (d : Z) :
  0 <= d <= 1000026 -> fits x d ->
  exists mid,
    round_normal x d = Ok mid /\
    (Qabs (inject_Z (signed mid) - to_Q x * inject_Z (10 ^ d)) <= Qmake 1 2)%Q.
Proof.
  intros Hd Hf. exists (_rescale x (- d) ROUND_HALF_UP).
  rewrite round_normal_fits by assumption. split; [reflexivity|].
  rewrite (to_Q_scaled x d) by lia.
  rewrite signed_rescale, rescale_half_up_coeff.
  pose proof (scaled_num_sign x (- d)) as HN.
  pose proof (scaled_den_pos x (- d)) as HD.
  pose proof (Z.div_mod (Z.abs (scaled_num x (- d))) (scaled_den x (- d)) ltac:(lia)) as Hdm.
  pose proof (Z.mod_pos_bound (Z.abs (scaled_num x (- d))) (scaled_den x (- d)) HD) as Hmb.
  unfold Qle, Qabs, Qminus, Qplus, Qopp, inject_Z. cbn [Qnum Qden].
  rewrite Pos.mul_1_l, Z2Pos.id by assumption.
  set (A := Z.abs (scaled_num x (- d))) in *.
  set (D := scaled_den x (- d)) in *.
  destruct (d_sign x), (Z.leb_spec D (2 * (A mod D))); nia.
Qed.

Lemma round_normal_is_nearest_witness :
  exists mid,
    round_normal (mkDecimal true 125 (-3)) 2 = Ok mid /\
    (Qabs (inject_Z (signed mid) - to_Q (mkDecimal true 125 (-3)) * inject_Z (10 ^ 2))
     <= Qmake 1 2)%Q.
Proof.
  apply (round_normal_is_nearest (mkDecimal true 125 (-3)) 2); [lia|].
  unfold fits, Qle. vm_compute. discriminate.
Defined.

(** [quantize] returns, or raises InvalidOperation; its closing [_fix]
    never overflows. *)
Lemma quantize_cases (x e : Decimal) (rnd : Rounding) :
  (exists r, quantize x e rnd = Ok r) \/ quantize x e rnd = Raise InvalidOperation.
Proof.
  unfold quantize.
  destruct (negb _) eqn:Hrange; [right; reflexivity|].
  apply negb_false_iff, andb_true_iff in Hrange as [H1 H2].
  apply Z.leb_le in H1, H2.
  destruct (is_zero x) eqn:Hz.
  - left. rewrite fix_id; [eauto | cbn [d_exp]; lia | discriminate].
  - destruct (Emax <? adjusted x); [right; reflexivity|].
    destruct (prec <? adjusted x - d_exp e + 1); [right; reflexivity|].
    destruct (Z.ltb_spec Emax (adjusted (_rescale x (d_exp e) rnd)));
      [right; reflexivity|].
    destruct (Z.ltb_spec prec (ndigits (coeff (_rescale x (d_exp e) rnd))));
      [right; reflexivity|].
    left. rewrite fix_id; [eauto | rewrite rescale_exp; lia | intros _; lia].
Qed.

(** X5. For a digit count between 0 and 1000026, [round_down] and
    [round_up] both return exactly when |x| * 10^d <= 10^28 - 1; beyond
    that one of them raises InvalidOperation. *)
Theorem rounding_returns_iff_fits (x : Decimal) (d : Z) :
  0 <= d <= 1000026 ->
  ((exists lo hi, round_down x d = Ok lo /\ round_up x d = Ok hi) <-> fits x d) /\
  (~ fits x d ->
   round_down x d = Raise InvalidOperation \/ round_up x d = Raise InvalidOperation).
Proof.
  intros Hd.
  assert (Hiff : (exists lo hi, round_down x d = Ok lo /\ round_up x d = Ok hi) <-> fits x d).
  { split.
    - intros (lo & hi & Hlo & Hhi). eapply round_bounds_only_when_fits; eassumption.
    - intros Hf. eexists _, _. split; [apply round_down_fits|apply round_up_fits]; assumption. }
  split; [exact Hiff|]. intros Hnf.
  pose proof (quantize_cases x (mkDecimal false 1 (- d))) as Hsig.
  unfold round_down, round_up, Decimal_of_str_of in *.
  rewrite scaleb_one in * by assumption. cbn [rbind] in *.
  destruct (Hsig ROUND_FLOOR) as [[lo Hlo]|Hlo]; [|left; exact Hlo].
  destruct (Hsig ROUND_CEILING) as [[hi Hhi]|Hhi]; [|right; exact Hhi].
  exfalso. apply Hnf, Hiff. eauto.
Qed.

End RoundingOrder.

Lemma rounding_returns_iff_fits_witness :
  ((exists lo hi, round_down (mkDecimal false 1 0) 28 = Ok lo /\
                  round_up (mkDecimal false 1 0) 28 = Ok hi) <->
   fits (mkDecimal false 1 0) 28) /\
  (~ fits (mkDecimal false 1 0) 28 ->
   round_down (mkDecimal false 1 0) 28 = Raise InvalidOperation \/
   round_up (mkDecimal false 1 0) 28 = Raise InvalidOperation).
Proof. apply (rounding_returns_iff_fits (mkDecimal false 1 0) 28). lia. Defined.

Section Prices.

Lemma price_valid_true (price : Decimal) (t : TickSize) :
  price_valid price t = Ok true <->
  (tick_value t <= to_Q price /\ to_Q price <= 1 - tick_value t)%Q.
Proof.
  unfold price_valid.
  destruct (one_minus_tick t) as (upper & -> & Hupper). cbn [rbind].
  pose proof (le_Qle (Decimal_of_TickSize t) price) as Hlo.
  pose proof (le_Qle price upper) as Hhi.
  rewrite to_Q_tick in Hlo. rewrite Hupper in Hhi.
  destruct (le (Decimal_of_TickSize t) price) eqn:E1.
  - rewrite <- Hhi. split.
    + intros [= ->]. split; [apply Hlo|]; reflexivity.
    + intros [_ ->]. reflexivity.
  - split; [discriminate|]. intros [H1 _]. apply Hlo in H1. discriminate.
Qed.

Lemma decimal_places_tick (t : TickSize) :
  1 <= decimal_places (Decimal_of_TickSize t) <= 4 /\
  tick_value t = Qmake 1 (Z.to_pos (10 ^ decimal_places (Decimal_of_TickSize t))).
Proof. destruct t; vm_compute; repeat split; discriminate. Qed.

(** X6. Rounding a valid price to the number of decimal places of the
    tick size keeps it valid, whichever of the three helpers is used. *)
Theorem rounding_keeps_price_valid (price : Decimal) (tick_size : TickSize) :
  price_valid price tick_size = Ok true ->
  exists lo mid hi,
    round_down price (decimal_places (Decimal_of_TickSize tick_size)) = Ok lo /\
    round_normal price (decimal_places (Decimal_of_TickSize tick_size)) = Ok mid /\
    round_up price (decimal_places (Decimal_of_TickSize tick_size)) = Ok hi /\
    price_valid lo tick_size = Ok true /\
    price_valid mid tick_size = Ok true /\
    price_valid hi tick_size = Ok true.
Proof.
  intros Hv. apply price_valid_true in Hv as [Hlo Hhi].
  destruct (decimal_places_tick tick_size) as [Hd Htick].
  set (d := decimal_places (Decimal_of_TickSize tick_size)) in *.
  pose proof (pow10_pos d ltac:(lia)) as Hp.
  pose proof (inject_Z_pow10_pos d ltac:(lia)) as HpQ.
  assert (Hpow : 10 ^ d <= 10 ^ 4) by (apply pow10_le_mono; lia).
  (* the price in units of the tick *)
  assert (Hy1 : (1 <= to_Q price * inject_Z (10 ^ d))%Q).
  { apply Qle_trans with (tick_value tick_size * inject_Z (10 ^ d))%Q.
    - rewrite Htick. unfold Qle, Qmult, inject_Z. cbn [Qnum Qden].
      rewrite Pos2Z.inj_mul, Z2Pos.id by lia. lia.
    - apply Qmult_le_compat_r; [exact Hlo|apply Qlt_le_weak, HpQ]. }
  assert (Hy2 : (to_Q price * inject_Z (10 ^ d) <= inject_Z (10 ^ d - 1))%Q).
  { apply Qle_trans with ((1 - tick_value tick_size) * inject_Z (10 ^ d))%Q.
    - apply Qmult_le_compat_r; [exact Hhi|apply Qlt_le_weak, HpQ].
    - rewrite Htick. unfold Qle, Qmult, Qminus, Qplus, Qopp, inject_Z. cbn [Qnum Qden].
      rewrite !Pos2Z.inj_mul, Z2Pos.id by lia. nia. }
  assert (Hpos : (0 <= to_Q price)%Q).
  { apply Qle_trans with (tick_value tick_size); [|exact Hlo].
    rewrite Htick. unfold Qle. cbn. lia. }
  assert (Hf : fits price d).
  { unfold fits. rewrite Qabs_pos by exact Hpos.
    apply Qle_trans with (inject_Z (10 ^ d - 1)); [exact Hy2|].
    unfold Qle, inject_Z. cbn [Qnum Qden].
    assert (10 ^ 4 <= 10 ^ prec) by (apply pow10_le_mono; unfold prec; lia). lia. }
  destruct (round_values price d ltac:(lia) Hf)
    as (lo & mid & hi & Rlo & Rmid & Rhi & (Elo & Emid & Ehi) & Slo & Shi & _).
  destruct (round_results_bracket price lo mid hi d Rlo Rmid Rhi) as (B1 & B2 & B3 & B4).
  apply le_Qle in B1, B2, B3, B4.
  assert (Tlo : (tick_value tick_size <= to_Q lo)%Q).
  { rewrite (to_Q_at_exp lo d) by lia. rewrite Htick.
    assert (1 <= signed lo).
    { rewrite Slo. change 1 with (Qfloor 1). apply Qfloor_resp_le, Hy1. }
    unfold Qle. cbn [Qnum Qden]. rewrite Z2Pos.id by lia. nia. }
  assert (Thi : (to_Q hi <= 1 - tick_value tick_size)%Q).
  { rewrite (to_Q_at_exp hi d) by lia. rewrite Htick.
    assert (signed hi <= 10 ^ d - 1).
    { rewrite Shi. rewrite <- (Qceiling_Z (10 ^ d - 1)). apply Qceiling_resp_le, Hy2. }
    unfold Qle, Qminus, Qplus, Qopp. cbn [Qnum Qden].
    rewrite !Pos2Z.inj_mul, Z2Pos.id by lia. nia. }
  exists lo, mid, hi. repeat split; try assumption; apply price_valid_true; split.
  - exact Tlo.
  - eapply Qle_trans; [exact B1|exact Hhi].
  - eapply Qle_trans; [exact Tlo|exact B3].
  - eapply Qle_trans; [exact B4|exact Thi].
  - eapply Qle_trans; [exact Hlo|exact B2].
  - exact Thi.
Qed.

Lemma rounding_keeps_price_valid_witness :
  exists lo mid hi,
    round_down (mkDecimal false 4567 (-4)) (decimal_places (Decimal_of_TickSize Tick_0_01)) = Ok lo /\
    round_normal (mkDecimal false 4567 (-4)) (decimal_places (Decimal_of_TickSize Tick_0_01)) = Ok mid /\
    round_up (mkDecimal false 4567 (-4)) (decimal_places (Decimal_of_TickSize Tick_0_01)) = Ok hi /\
    price_valid lo Tick_0_01 = Ok true /\
    price_valid mid Tick_0_01 = Ok true /\
    price_valid hi Tick_0_01 = Ok true.
Proof.
  apply (rounding_keeps_price_valid (mkDecimal false 4567 (-4)) Tick_0_01).
  vm_compute. reflexivity.
Defined.

End Prices.

Section Ticks.

(** Python's [<] on finite Decimals is the strict order of the rationals. *)
Lemma lt_Qlt (a b : Decimal) : lt a b = true <-> (to_Q a < to_Q b)%Q.
Proof.
  unfold lt, cmp, aligned, Qlt, to_Q. cbn [Qnum Qden].
  rewrite !Zpos_pow10 by lia.
  set (m := Z.min (d_exp a) (d_exp b)).
  set (K := Z.max (- d_exp a) 0 + Z.max (- d_exp b) 0 + m).
  assert (HK : 0 <= K) by lia.
  pose proof (pow10_pos K HK) as HpK.
  assert (Ea : signed a * 10 ^ Z.max (d_exp a) 0 * 10 ^ Z.max (- d_exp b) 0 =
               signed a * 10 ^ (d_exp a - m) * 10 ^ K).
  { rewrite <- !Z.mul_assoc. f_equal. rewrite <- !pow10_add by lia. f_equal. lia. }
  assert (Eb : signed b * 10 ^ Z.max (d_exp b) 0 * 10 ^ Z.max (- d_exp a) 0 =
               signed b * 10 ^ (d_exp b - m) * 10 ^ K).
  { rewrite <- !Z.mul_assoc. f_equal. rewrite <- !pow10_add by lia. f_equal. lia. }
  rewrite Ea, Eb.
  rewrite <- (Z.mul_lt_mono_pos_r _ _ _ HpK).
  destruct (Z.compare_spec (signed a * 10 ^ (d_exp a - m)) (signed b * 10 ^ (d_exp b - m)));
    split; intros; try reflexivity; try lia; discriminate.
Qed.

Lemma is_tick_size_smaller_spec (a b : TickSize) :
  is_tick_size_smaller a b = true <-> (tick_value a < tick_value b)%Q.
Proof. unfold is_tick_size_smaller. rewrite lt_Qlt, !to_Q_tick. reflexivity. Qed.

(** X7. When [is_tick_size_smaller a b] holds, the value of [a] is below
    the value of [b], and every price valid for [b] is valid for [a]. *)
Theorem smaller_tick_accepts_more (a b : TickSize) (price : Decimal) :
  is_tick_size_smaller a b = true ->
  price_valid price b = Ok true ->
  (tick_value a < tick_value b)%Q /\ price_valid price a = Ok true.
Proof.
  intros Hs Hv. apply is_tick_size_smaller_spec in Hs.
  split; [exact Hs|].
  apply price_valid_true in Hv as [Hlo Hhi].
  apply price_valid_true. split.
  - eapply Qle_trans; [apply Qlt_le_weak, Hs|exact Hlo].
  - eapply Qle_trans; [exact Hhi|].
    apply Qplus_le_r, Qopp_le_compat, Qlt_le_weak, Hs.
Qed.

Lemma smaller_tick_accepts_more_witness :
  (tick_value Tick_0_001 < tick_value Tick_0_01)%Q /\
  price_valid (mkDecimal false 5 (-1)) Tick_0_001 = Ok true.
Proof.
  apply (smaller_tick_accepts_more Tick_0_001 Tick_0_01 (mkDecimal false 5 (-1)));
    vm_compute; reflexivity.
Defined.

End Ticks.

Section TokenDecimals.

Lemma million_quantized :
  quantize (Decimal_of_int (10 ^ 6)) (Decimal_of_int 1) ROUND_HALF_UP =
    Ok (mkDecimal false 1000000 0).
Proof. vm_compute. reflexivity. Qed.

(** X8. Within the context precision (a coefficient below 10^22 and an
    exponent within the context's range) [to_token_decimals] returns
    x * 10^6 truncated toward zero: the half-up rounding in its body acts
    on the constant 10^6 only. *)
Theorem to_token_decimals_truncates (x : Decimal) :
  coeff x < 10 ^ 22 -> Etiny <= d_exp x <= Etop ->
  exists n,
    to_token_decimals x = Ok n /\
    Z.abs n = Qfloor (Qabs (to_Q x) * inject_Z (10 ^ 6)) /\
    n = (if d_sign x then - Z.abs n else Z.abs n).
Proof.
  intros Hc He. pose proof (coeff_nonneg x) as Hc0.
  unfold to_token_decimals, Decimal_of_str_of. rewrite million_quantized. cbn [rbind].
  unfold mul. cbn [d_sign d_int d_exp]. rewrite xorb_false_r, Z.add_0_r.
  set (p := mkDecimal (d_sign x) (d_int x * 1000000) (d_exp x)).
  assert (Hcp : coeff p = coeff x * 10 ^ 6).
  { unfold p, coeff. cbn [d_int]. rewrite N2Z.inj_mul. reflexivity. }
  assert (Hfix : _fix p = Ok p).
  { apply fix_id; [unfold p, Etop, Emax, prec in *; cbn [d_exp]; lia|].
    intros Hnz. unfold is_zero in Hnz. apply Z.eqb_neq in Hnz.
    assert (Hn : ndigits (coeff p) <= prec).
    { apply ndigits_le; [lia|unfold prec; lia|].
      rewrite Hcp. unfold prec. change (10 ^ 28) with (10 ^ 22 * 10 ^ 6).
      apply Z.mul_lt_mono_pos_r; [reflexivity|exact Hc]. }
    split; [exact Hn|]. unfold adjusted, p at 1. cbn [d_exp].
    unfold Etop, Emax, prec in *. lia. }
  rewrite Hfix. cbn [rbind]. eexists. split; [reflexivity|].
  rewrite (Qfloor_comp _ _ (Qabs_to_Q_scaled x 6 ltac:(lia))).
  unfold Qfloor. rewrite Z2Pos.id by apply scaled_den_pos.
  unfold to_int, signed, scaled_num, scaled_den, signed. rewrite Hcp.
  unfold p. cbn [d_sign d_exp]. change (Z.opp 6) with (-6).
  replace (Z.abs ((if d_sign x then - coeff x else coeff x) *
                  10 ^ Z.max (d_exp x - - 6) 0))
    with (coeff x * 10 ^ Z.max (d_exp x - - 6) 0).
  2:{ pose proof (pow10_pos (Z.max (d_exp x - - 6) 0) ltac:(lia)).
      destruct (d_sign x); nia. }
  assert (Hval : Z.abs (if 0 <=? d_exp x
                        then (if d_sign x then - (coeff x * 10 ^ 6) else coeff x * 10 ^ 6) *
                             10 ^ d_exp x
                        else (if d_sign x then -1 else 1) *
                             (coeff x * 10 ^ 6 / 10 ^ (- d_exp x))) =
                 coeff x * 10 ^ Z.max (d_exp x - - 6) 0 / 10 ^ Z.max (- 6 - d_exp x) 0).
  { destruct (Z.leb_spec 0 (d_exp x)) as [Hge|Hlt].
    - rewrite Z.max_l, Z.max_r by lia. change (10 ^ 0) with 1. rewrite Z.div_1_r.
      replace (d_exp x - - 6) with (6 + d_exp x) by lia. rewrite pow10_add by lia.
      pose proof (pow10_pos (d_exp x) Hge). destruct (d_sign x); nia.
    - pose proof (pow10_pos (- d_exp x) ltac:(lia)) as Hp.
      assert (Hq : 0 <= coeff x * 10 ^ 6 / 10 ^ (- d_exp x)) by (apply Z.div_pos; lia).
      replace (Z.abs ((if d_sign x then -1 else 1) * (coeff x * 10 ^ 6 / 10 ^ (- d_exp x))))
        with (coeff x * 10 ^ 6 / 10 ^ (- d_exp x)) by (destruct (d_sign x); lia).
      destruct (Z.le_gt_cases (- 6) (d_exp x)) as [H6|H6].
      + rewrite Z.max_l, Z.max_r by lia. change (10 ^ 0) with 1. rewrite Z.div_1_r.
        replace 6 with ((d_exp x - - 6) + - d_exp x) at 1 by lia.
        rewrite pow10_add by lia. rewrite Z.mul_assoc.
        apply Z.div_mul. lia.
      + rewrite Z.max_r, Z.max_l by lia. change (10 ^ 0) with 1. rewrite Z.mul_1_r.
        replace (- d_exp x) with (6 + (- 6 - d_exp x)) by lia.
        rewrite pow10_add by lia.
        rewrite (Z.mul_comm (coeff x)).
        apply Z.div_mul_cancel_l; [|lia].
        pose proof (pow10_pos (- 6 - d_exp x) ltac:(lia)). lia. }
  split; [exact Hval|].
  destruct (Z.leb_spec 0 (d_exp x)) as [Hge|Hlt].
  - pose proof (pow10_pos (d_exp x) Hge). destruct (d_sign x); nia.
  - pose proof (pow10_pos (- d_exp x) ltac:(lia)) as Hp.
    assert (Hq : 0 <= coeff x * 10 ^ 6 / 10 ^ (- d_exp x)) by (apply Z.div_pos; lia).
    destruct (d_sign x); lia.
Qed.

Lemma to_token_decimals_truncates_witness :
  exists n,
    to_token_decimals (mkDecimal false 19 (-7)) = Ok n /\
    Z.abs n = Qfloor (Qabs (to_Q (mkDecimal false 19 (-7))) * inject_Z (10 ^ 6)) /\
    n = (if d_sign (mkDecimal false 19 (-7)) then - Z.abs n else Z.abs n).
Proof.
  apply (to_token_decimals_truncates (mkDecimal false 19 (-7))).
  - vm_compute. reflexivity.
  - vm_compute. split; discriminate.
Defined.

Example to_token_decimals_does_not_round :
  to_token_decimals (mkDecimal false 19 (-7)) = Ok 1.
Proof. vm_compute. reflexivity. Qed.

End TokenDecimals.

(** * Further properties of websockets_client.py *)

Lemma market_model_literal `{Library} (v : JSON) (m : Model) (fields : gmap string JSON) :
  market_model v = Some m -> fields !! "event_type" = Some v ->
  event_type_errors m fields = [].
Proof.
  unfold market_model, event_type_errors. intros Hm ->.
  repeat match type of Hm with
  | (if eq_str v ?s then _ else _) = _ =>
      let E := fresh "E" in destruct (eq_str v s) eqn:E;
      [apply eq_str_spec in E; subst v; injection Hm as <-; reflexivity|]
  end.
  discriminate.
Qed.

Lemma user_model_literal `{Library} (v : JSON) (m : Model) (fields : gmap string JSON) :
  user_model v = Some m -> fields !! "event_type" = Some v ->
  event_type_errors m fields = [].
Proof.
  unfold user_model, event_type_errors. intros Hm ->.
  repeat match type of Hm with
  | (if eq_str v ?s then _ else _) = _ =>
      let E := fresh "E" in destruct (eq_str v s) eqn:E;
      [apply eq_str_spec in E; subst v; injection Hm as <-; reflexivity|]
  end.
  discriminate.
Qed.

Lemma print_event_dispatched `{Library} (m : Model) (fields : gmap string JSON) :
  event_type_errors m fields = [] ->
  print_event m (JDict fields) =
    match field_errors m fields with
    | [] => ([Printed (PEvent (mkEvent m fields))], Ok tt)
    | errors => ([], Raise (ValidationError errors))
    end.
Proof.
  intros E. unfold print_event, construct. rewrite E. cbn [app].
  destruct (field_errors m fields); reflexivity.
Qed.

(** X9. On an object frame with an [event_type], the Market handler always
    returns and always prints: the event of the model its [match] selects
    when the other fields validate, the validation errors and the payload
    when they do not, the payload itself for any other discriminant.  The
    [event_type] annotation of the selected model never rejects the frame. *)
Theorem market_object_frame_outcome `{Library} (fields : gmap string JSON) (event_type : JSON) :
  fields !! "event_type" = Some event_type ->
  _process_market_event (EventWrapper_init (JDict fields)) =
    (match market_model event_type with
     | Some m =>
         match field_errors m fields with
         | [] => [Printed (PEvent (mkEvent m fields))]
         | errors => [Printed (PErrors errors); Printed (PJson (JDict fields))]
         end
     | None => [Printed (PJson (JDict fields))]
     end, Ok tt).
Proof.
  intros Hk. unfold _process_market_event, EventWrapper_init, subscript.
  cbn [json text]. rewrite Hk.
  pose proof (fun m Hm => print_event_dispatched m fields
                (market_model_literal event_type m fields Hm Hk)) as Hp.
  unfold market_model in *. cbn [lift bind app].
  repeat match goal with
  | |- context [if eq_str event_type ?s then _ else _] =>
      destruct (eq_str event_type s);
      [rewrite Hp by reflexivity; destruct (field_errors _ fields); reflexivity|]
  end.
  reflexivity.
Qed.

Lemma market_object_frame_outcome_witness :
  let L := sample_library in
  let fields : gmap string JSON := <["event_type" := JStr "price_change"]> ∅ in
  @_process_market_event L (@EventWrapper_init L (JDict fields)) =
    (match market_model (JStr "price_change") with
     | Some m =>
         match @field_errors L m fields with
         | [] => [Printed (PEvent (mkEvent m fields))]
         | errors => [Printed (PErrors errors); Printed (PJson (JDict fields))]
         end
     | None => [Printed (PJson (JDict fields))]
     end, Ok tt).
Proof.
  intros L fields.
  apply (@market_object_frame_outcome L fields (JStr "price_change")).
  apply lookup_insert_eq.
Defined.

(** X10. On an object frame whose [event_type] is "order" or "trade", the
    User handler always returns: it prints the event when the other fields
    validate, and the frame text followed by the validation errors when
    they do not. *)
Theorem user_object_frame_outcome `{Library} (fields : gmap string JSON) (event_type : JSON)
    (m : Model) :
  fields !! "event_type" = Some event_type ->
  user_model event_type = Some m ->
  _process_user_event (EventWrapper_init (JDict fields)) =
    (match field_errors m fields with
     | [] => [Printed (PEvent (mkEvent m fields))]
     | errors => [Printed (PText (json_dumps (JDict fields))); Printed (PErrors errors)]
     end, Ok tt).
Proof.
  intros Hk Hm. unfold _process_user_event, EventWrapper_init, subscript.
  cbn [json text]. rewrite Hk.
  pose proof (print_event_dispatched m fields
                (user_model_literal event_type m fields Hm Hk)) as Hp.
  unfold user_model in Hm. cbn [lift bind app].
  destruct (eq_str event_type "order").
  - injection Hm as <-. rewrite Hp. destruct (field_errors _ fields); reflexivity.
  - destruct (eq_str event_type "trade"); [|discriminate].
    injection Hm as <-. rewrite Hp. destruct (field_errors _ fields); reflexivity.
Qed.

Lemma user_object_frame_outcome_witness :
  let L := sample_library in
  let fields : gmap string JSON := <["event_type" := JStr "trade"]> ∅ in
  @_process_user_event L (@EventWrapper_init L (JDict fields)) =
    (match @field_errors L TradeEvent fields with
     | [] => [Printed (PEvent (mkEvent TradeEvent fields))]
     | errors => [Printed (PText (@json_dumps L (JDict fields))); Printed (PErrors errors)]
     end, Ok tt).
Proof.
  intros L fields.
  apply (@user_object_frame_outcome L fields (JStr "trade") TradeEvent).
  - apply lookup_insert_eq.
  - reflexivity.
Defined.

(** X11. An object frame without [event_type] makes both default handlers
    raise KeyError before printing anything; in the receive loop this is
    reported as an error processing the message, and the loop goes on. *)
Theorem missing_event_type_is_reported `{Library} (fields : gmap string JSON) (message : string) :
  fields !! "event_type" = None ->
  json_loads message = Ok (JDict fields) ->
  _process_market_event (EventWrapper_init (JDict fields)) =
    ([], Raise (KeyError "event_type")) /\
  _process_user_event (EventWrapper_init (JDict fields)) =
    ([], Raise (KeyError "event_type")) /\
  on_message _process_market_event message =
    ([Printed (PText ("Error processing message: " +:+ exn_str (KeyError "event_type")))],
     Ok tt) /\
  on_message _process_user_event message =
    ([Printed (PText ("Error processing message: " +:+ exn_str (KeyError "event_type")))],
     Ok tt).
Proof.
  intros Hk Hload.
  assert (E1 : _process_market_event (EventWrapper_init (JDict fields)) =
               ([], Raise (KeyError "event_type"))).
  { unfold _process_market_event, EventWrapper_init, subscript.
    cbn [json text]. rewrite Hk. reflexivity. }
  assert (E2 : _process_user_event (EventWrapper_init (JDict fields)) =
               ([], Raise (KeyError "event_type"))).
  { unfold _process_user_event, EventWrapper_init, subscript.
    cbn [json text]. rewrite Hk. reflexivity. }
  repeat split; try assumption.
  - unfold on_message. rewrite Hload. cbn [lift bind app]. rewrite E1. reflexivity.
  - unfold on_message. rewrite Hload. cbn [lift bind app]. rewrite E2. reflexivity.
Qed.

Lemma missing_event_type_is_reported_witness :
  let L := sample_library in
  @on_message L (@_process_market_event L) "{}" =
    ([Printed (PText ("Error processing message: " +:+ @exn_str L (KeyError "event_type")))],
     Ok tt).
Proof.
  intros L.
  apply (@missing_event_type_is_reported L ∅ "{}"); reflexivity.
Defined.


Section Supervisor.

Context `{Library}.

Lemma prints_are_silent (trace : list action) :
  Forall is_print trace -> transport trace = [].
Proof.
  induction 1 as [|a trace Ha _ IH]; [reflexivity|].
  unfold transport in *. destruct a; cbn in *; try contradiction. exact IH.
Qed.

Lemma on_message_prints (process_event : EventWrapper -> io unit) (message : string) :
  only_prints process_event -> Forall is_print (on_message process_event message).1.
Proof.
  intros Hp. unfold on_message, try_except, bind, lift.
  destruct (json_loads message) as [data|e].
  - specialize (Hp (EventWrapper_init data)).
    destruct (process_event (EventWrapper_init data)) as [out [[]|e]]; cbn [fst] in *.
    + rewrite app_nil_l. exact Hp.
    + rewrite app_nil_l. destruct e; cbn; apply Forall_app; split; try exact Hp;
        repeat constructor.
  - destruct e; cbn; repeat constructor.
Qed.

Lemma for_each_cons_out {A} (body : A -> io unit) (x : A) (rest : list A) :
  (forall y, (body y).2 = Ok tt) ->
  (for_each (x :: rest) body).1 = (body x).1 ++ (for_each rest body).1.
Proof. intros Hb. cbn [for_each]. rewrite (bind_ok _ _ tt) by apply Hb. reflexivity. Qed.

Lemma frames_print (process_event : EventWrapper -> io unit) (frames : list string) :
  only_prints process_event ->
  Forall is_print (for_each frames (on_message process_event)).1.
Proof.
  intros Hp. induction frames as [|m rest IH]; [constructor|].
  rewrite for_each_cons_out by apply on_message_ok.
  apply Forall_app. split; [apply on_message_prints, Hp|exact IH].
Qed.

(** What one turn of the loop does on the transport. *)
Lemma turn_accounts (name url handshake : string)
    (process_event : EventWrapper -> io unit) (s : session) :
  only_prints process_event ->
  transport (turn name url handshake process_event s).1 = turn_transport url handshake s.
Proof.
  intros Hp. destruct s as [e|e|frames closing].
  - reflexivity.
  - reflexivity.
  - rewrite turn_receives. cbn [fst]. unfold transport, turn_transport.
    cbn [omap list_omap connected]. fold (@omap list _ action action).
    rewrite omap_app.
    pose proof (prints_are_silent _ (frames_print process_event frames Hp)) as Hs.
    unfold transport in Hs. rewrite Hs. destruct closing; reflexivity.
Qed.

Lemma supervise_accounts (name url handshake : string)
    (process_event : EventWrapper -> io unit) (script : list session) :
  only_prints process_event ->
  transport (for_each script (turn name url handshake process_event)).1 =
    concat (turn_transport url handshake <$> script).
Proof.
  intros Hp. induction script as [|s rest IH]; [reflexivity|].
  rewrite for_each_cons_out by (intros y; apply turn_ok).
  unfold transport in *. rewrite omap_app, IH.
  pose proof (turn_accounts name url handshake process_event s Hp) as Ht.
  unfold transport in Ht. rewrite Ht. reflexivity.
Qed.

End Supervisor.

(** X12. With a handler that only prints, the transport trace of
    [market_socket] and of [user_socket] is, turn after turn: a connection
    attempt to the socket's own endpoint; the handshake, if the connection
    was made, and no other frame; a one-second sleep closing the turn if
    something was raised in it.  So the sleep comes after the failing turn
    and before the next connection attempt, and a connection that ends
    normally is followed at once by the next attempt. *)
Theorem sockets_account_for_every_turn `{Library}
    (token_ids : list string) (custom_feature_enabled : bool) (creds : ApiCreds)
    (process_event : EventWrapper -> io unit) (script : list session) :
  only_prints process_event ->
  transport (market_socket token_ids custom_feature_enabled process_event script).1 =
    concat (turn_transport url_market
              (market_handshake token_ids custom_feature_enabled) <$> script) /\
  transport (user_socket creds process_event script).1 =
    concat (turn_transport url_user
              (json_dumps (JDict (<["auth" := model_dump_by_alias creds]> ∅))) <$> script).
Proof.
  intros Hp. unfold market_socket, user_socket, market_handshake.
  split; apply supervise_accounts, Hp.
Qed.

Lemma sockets_account_for_every_turn_witness :
  let L := sample_library in
  let script := [ConnectRaises (TransportError "refused"); Receives ["{}"] None;
                 Receives [] (Some (TransportError "reset"))] in
  transport (@market_socket L ["token"] false (fun _ => ret tt) script).1 =
    [Connect url_market; Sleep 1;
     Connect url_market; Send (@market_handshake L ["token"] false);
     Connect url_market; Send (@market_handshake L ["token"] false); Sleep 1].
Proof.
  intros L script.
  destruct (@sockets_account_for_every_turn L ["token"] false ("k", "s", "p")
              (fun _ => ret tt) script) as [M _].
  - intros event. constructor.
  - exact M.
Defined.

(** X13. When building the payload does not raise, and the handler only
    prints, [live_data_socket] does not raise, and its transport trace is,
    turn after turn: a connection attempt to the LiveData endpoint; the
    serialized payload, if the connection was made, and no other frame; a
    one-second sleep closing the turn if something was raised in it. *)
Theorem live_data_socket_accounts_for_every_turn `{Library}
    (subscriptions : list loc) (creds : option ApiCreds)
    (process_event : EventWrapper -> io unit) (script : list session)
    (h h' : store) (payload : Payload) :
  only_prints process_event ->
  live_data_payload subscriptions creds h = (Ok payload, h') ->
  (live_data_socket subscriptions process_event creds script h).1.2 = Ok tt /\
  transport (live_data_socket subscriptions process_event creds script h).1.1 =
    concat (turn_transport url_live_data (json_dumps (payload_json h' payload)) <$> script).
Proof.
  intros Hp Hpay. unfold live_data_socket. rewrite Hpay. cbn [fst snd].
  split; [apply for_each_ok; intros s; apply turn_ok|].
  apply supervise_accounts, Hp.
Qed.

Lemma live_data_socket_accounts_for_every_turn_witness :
  let L := sample_library in
  let h : store := <[1%positive := <["topic" := JStr "comments"]> ∅]> ∅ in
  let script := [SendRaises (TransportError "closed"); Receives ["{}"] None] in
  let frame := @json_dumps L (@payload_json h (mkPayload "subscribe" [1%positive])) in
  (@live_data_socket L [1%positive] (fun _ => ret tt) None script h).1.2 = Ok tt /\
  transport (@live_data_socket L [1%positive] (fun _ => ret tt) None script h).1.1 =
    [Connect url_live_data; Send frame; Sleep 1; Connect url_live_data; Send frame].
Proof.
  intros L h script frame.
  apply (@live_data_socket_accounts_for_every_turn L [1%positive] None (fun _ => ret tt)
           script h h (mkPayload "subscribe" [1%positive])).
  - intros event. constructor.
  - vm_compute. reflexivity.
Defined.

Section HandlersPrint.

Context `{Library}.

Lemma prints_bind {A B} (m : io A) (k : A -> io B) :
  Forall is_print m.1 -> (forall a, Forall is_print (k a).1) ->
  Forall is_print (bind m k).1.
Proof.
  intros Hm Hk. destruct m as [out [a|e]]; cbn in *; [|exact Hm].
  specialize (Hk a). destruct (k a) as [out' r]. cbn in *.
  apply Forall_app. auto.
Qed.

Lemma prints_try {A} (body : io A) (handler : exn -> option (io A)) :
  Forall is_print body.1 ->
  (forall e h, handler e = Some h -> Forall is_print h.1) ->
  Forall is_print (try_except body handler).1.
Proof.
  intros Hb Hh. destruct body as [out [a|e]]; cbn in *; [exact Hb|].
  destruct (handler e) as [h|] eqn:E; [|exact Hb].
  specialize (Hh e h E). destruct h as [out' r]. cbn in *.
  apply Forall_app. auto.
Qed.

Lemma prints_print (p : printed) : Forall is_print (print p).1.
Proof. repeat constructor. Qed.

Lemma prints_lift {A} (r : result exn A) : Forall is_print (lift r).1.
Proof. constructor. Qed.

Lemma prints_print_event (m : Model) (message : JSON) :
  Forall is_print (print_event m message).1.
Proof. apply prints_bind; [apply prints_lift|intros; apply prints_print]. Qed.

Lemma prints_for_each {A} (l : list A) (body : A -> io unit) :
  (forall x, Forall is_print (body x).1) -> Forall is_print (for_each l body).1.
Proof.
  intros Hb. induction l as [|x rest IH]; [constructor|].
  cbn [for_each]. apply prints_bind; [apply Hb|intros; exact IH].
Qed.

(** The default handlers do nothing but print. *)
Lemma default_handlers_only_print :
  only_prints _process_market_event /\ only_prints _process_user_event.
Proof.
  split; intros event.
  - unfold _process_market_event. apply prints_try.
    + destruct (json event);
        try (apply prints_bind; [apply prints_lift|]; intros v;
             repeat match goal with
             | |- context [if ?b then _ else _] => destruct b
             end; first [apply prints_print_event|apply prints_print]).
      apply prints_for_each. intros item. apply prints_try.
      * apply prints_print_event.
      * intros e h. destruct e; intros [= <-]. constructor.
    + intros e h. destruct e; intros [= <-]; repeat constructor.
  - unfold _process_user_event. apply prints_try.
    + apply prints_bind; [apply prints_lift|]. intros v.
      repeat match goal with
      | |- context [if ?b then _ else _] => destruct b
      end; first [apply prints_print_event|constructor].
    + intros e h. destruct e; intros [= <-]; repeat constructor.
Qed.

End HandlersPrint.

(** ** The LiveData handler *)

Import LiveData.

Ltac live_dispatch_case fields Hk :=
  match goal with
  | |- context [live_model_of ?t] =>
      let m := eval vm_compute in (live_model_of t) in
      change (live_model_of t) with m
  end;
  unfold print_live_event, live_construct, type_errors; rewrite Hk;
  cbn [existsb type_literals orb String.eqb Ascii.eqb Bool.eqb andb app lift bind];
  match goal with
  | |- context [?f ?m fields] => destruct (f m fields)
  end; reflexivity.

(** X14. On an object frame with a [type], the LiveData handler always
    returns and always prints: the event of the model whose [Literal]
    holds that type when the other fields validate, the validation errors
    and the frame text when they do not, the payload for a type no model
    declares.  The cases of the handler's [match] and the [Literal]
    annotations of the models agree on every type string. *)
Theorem live_object_frame_outcome `{Library}
    (live_field_errors : LiveModel -> gmap string JSON -> list string)
    (live_event_str : LiveEvent -> string)
    (fields : gmap string JSON) (type : JSON) :
  fields !! "type" = Some type ->
  _process_live_data_event live_field_errors live_event_str
      (EventWrapper_init (JDict fields)) =
    (match live_model_of type with
     | Some m =>
         match live_field_errors m fields with
         | [] => [Printed (PText (live_event_str (mkLiveEvent m fields)))]
         | errors => [Printed (PErrors errors);
                      Printed (PText (json_dumps (JDict fields)))]
         end
     | None => [Printed (PJson (JDict fields))]
     end, Ok tt).
Proof.
  intros Hk. unfold _process_live_data_event, EventWrapper_init, subscript.
  cbn [json text]. rewrite Hk. cbn [lift bind app].
  destruct type as [| | | |s| |]; try reflexivity.
  unfold eq_any, eq_str. cbn [existsb].
  repeat match goal with
  | |- context [String.eqb s ?lit] =>
      let E := fresh "E" in
      destruct (String.eqb s lit) eqn:E;
      [apply String.eqb_eq in E; subst s; cbn [orb]; live_dispatch_case fields Hk|]
  end.
  cbn [orb]. unfold live_model_of, type_literals. cbn [find existsb].
  repeat match goal with
  | E : String.eqb s _ = false |- _ => rewrite E; clear E
  end.
  reflexivity.
Qed.

Lemma live_object_frame_outcome_witness :
  let L := sample_library in
  let fields : gmap string JSON := <["type" := JStr "quote_edited"]> ∅ in
  _process_live_data_event (fun _ _ => []) (fun _ => "event")
      (@EventWrapper_init L (JDict fields)) =
    ([Printed (PText "event")], Ok tt).
Proof.
  intros L fields.
  apply (@live_object_frame_outcome L (fun _ _ => []) (fun _ => "event") fields
           (JStr "quote_edited")).
  apply lookup_insert_eq.
Defined.

(** * Properties of the validators of types/common.py *)

Import Common.

Section Validators.

Lemma startswith_0x_cons (s : string) : startswith_0x ("0x" +:+ s) = true.
Proof. unfold startswith_0x. cbn. destruct s; reflexivity. Qed.

Lemma startswith_add_0x (s : string) : startswith_0x (add_0x s) = true.
Proof.
  unfold add_0x. destruct (startswith_0x s) eqn:E; [exact E|apply startswith_0x_cons].
Qed.

Lemma add_0x_id (s : string) : startswith_0x s = true -> add_0x s = s.
Proof. unfold add_0x. intros ->. reflexivity. Qed.

Lemma hex_run_length (count : nat) :
  forall s rest, hex_run count s = Some rest ->
    String.length s = (count + String.length rest)%nat.
Proof.
  induction count as [|count IH]; intros s rest; cbn [hex_run].
  - intros [= ->]. reflexivity.
  - destruct s as [|c s]; [discriminate|]. destruct (is_hex c); [|discriminate].
    intros Hr. cbn [String.length]. rewrite (IH _ _ Hr). reflexivity.
Qed.

Lemma at_end_cases (s : string) :
  at_end s = true -> s = EmptyString \/ s = newline.
Proof.
  destruct s as [|c [|c' s]]; cbn; try discriminate; [auto|].
  intros E. apply Ascii.eqb_eq in E. subst c. right. reflexivity.
Qed.

(** What the pattern accepts: the prefix, [count] hexadecimal digits, and
    possibly one newline. *)
Lemma match_0x_hex_shape (count : nat) (v : string) :
  match_0x_hex count v = true ->
  exists body tail,
    v = "0x" +:+ body /\ hex_run count body = Some tail /\
    (tail = EmptyString \/ tail = newline).
Proof.
  unfold match_0x_hex. destruct v as [|c0 [|c1 body]]; try discriminate.
  destruct (Ascii.eqb c0 _) eqn:E0; [|discriminate].
  destruct (Ascii.eqb c1 _) eqn:E1; [|discriminate]. cbn [andb].
  apply Ascii.eqb_eq in E0, E1. subst c0 c1.
  destruct (hex_run count body) as [tail|] eqn:Hr; [|discriminate].
  intros Hend. exists body, tail. split; [reflexivity|]. split; [exact Hr|].
  apply at_end_cases, Hend.
Qed.

Lemma match_0x_hex_startswith (count : nat) (v : string) :
  match_0x_hex count v = true -> startswith_0x v = true.
Proof.
  intros H. apply match_0x_hex_shape in H as (body & tail & -> & _).
  apply startswith_0x_cons.
Qed.

Lemma hex_run_split (count : nat) :
  forall s rest, hex_run count s = Some rest -> exists digits, s = digits +:+ rest.
Proof.
  induction count as [|count IH]; intros s rest; cbn [hex_run].
  - intros [= ->]. exists EmptyString. reflexivity.
  - destruct s as [|c s]; [discriminate|]. destruct (is_hex c); [|discriminate].
    intros Hr. destruct (IH _ _ Hr) as (digits & ->).
    exists (String c digits). reflexivity.
Qed.

Lemma match_0x_hex_length (count : nat) (v : string) :
  match_0x_hex count v = true ->
  String.length v = (2 + count)%nat \/
  (String.length v = (3 + count)%nat /\ exists w, v = w +:+ newline).
Proof.
  intros H. apply match_0x_hex_shape in H as (body & tail & -> & Hr & Ht).
  pose proof (hex_run_length _ _ _ Hr) as Hl.
  destruct (hex_run_split _ _ _ Hr) as (digits & Hd).
  assert (Hlen : String.length ("0x" +:+ body) = S (S (String.length body)))
    by reflexivity.
  rewrite Hlen. clear Hlen.
  destruct Ht as [->| ->]; cbn [String.length newline] in Hl.
  - left. lia.
  - right. split; [lia|]. exists ("0x" +:+ digits). rewrite Hd. reflexivity.
Qed.

(** X15. What [validate_keccak256] returns starts with "0x", is accepted
    unchanged when validated again, and has 66 characters, or 67 when the
    input ended with a newline, which the pattern's [$] lets through. *)
Theorem validate_keccak256_normalizes (v : pyvalue) (r : string) :
  validate_keccak256 v = Ok r ->
  startswith_0x r = true /\
  validate_keccak256 (PyStr r) = Ok r /\
  (String.length r = 66%nat \/
   (String.length r = 67%nat /\ exists w, r = w +:+ newline)).
Proof.
  unfold validate_keccak256.
  destruct v as [s|s|s|]; cbn [rbind]; try discriminate;
    (destruct (match_0x_hex 64 (add_0x s)) eqn:Hm; cbn [negb]; [|discriminate];
     intros [= <-];
     split; [apply startswith_add_0x|];
     split; [rewrite add_0x_id by apply startswith_add_0x; rewrite Hm; reflexivity|];
     exact (match_0x_hex_length 64 _ Hm)).
Qed.

Lemma validate_keccak256_normalizes_witness :
  let r := "0x00000000000000000000000000000000000000000000000000000000000000ff" in
  startswith_0x r = true /\
  validate_keccak256 (PyStr r) = Ok r /\
  (String.length r = 66%nat \/
   (String.length r = 67%nat /\ exists w, r = w +:+ newline)).
Proof.
  intros r.
  apply (validate_keccak256_normalizes
           (PyStr "00000000000000000000000000000000000000000000000000000000000000ff") r).
  vm_compute. reflexivity.
Defined.

(** X16. The same for [validate_eth_address], with 42 or 43 characters. *)
Theorem validate_eth_address_normalizes (v : pyvalue) (r : string) :
  validate_eth_address v = Ok r ->
  startswith_0x r = true /\
  validate_eth_address (PyStr r) = Ok r /\
  (String.length r = 42%nat \/
   (String.length r = 43%nat /\ exists w, r = w +:+ newline)).
Proof.
  unfold validate_eth_address.
  destruct v as [s|s|s|]; cbn [rbind]; try discriminate;
    (destruct (match_0x_hex 40 (add_0x s)) eqn:Hm; cbn [negb]; [|discriminate];
     intros [= <-];
     split; [apply startswith_add_0x|];
     split; [rewrite add_0x_id by apply startswith_add_0x; rewrite Hm; reflexivity|];
     exact (match_0x_hex_length 40 _ Hm)).
Qed.

Lemma validate_eth_address_normalizes_witness :
  let r := "0x00000000000000000000000000000000000000Ab" in
  startswith_0x r = true /\
  validate_eth_address (PyStr r) = Ok r /\
  (String.length r = 42%nat \/
   (String.length r = 43%nat /\ exists w, r = w +:+ newline)).
Proof.
  intros r.
  apply (validate_eth_address_normalizes
           (PyStr "00000000000000000000000000000000000000Ab") r).
  vm_compute. reflexivity.
Defined.

Lemma startswith_0x_shape (s : string) :
  startswith_0x s = true -> exists body, s = "0x" +:+ body.
Proof.
  unfold startswith_0x. intros Hp.
  apply String.prefix_correct in Hp. cbn [String.length] in Hp.
  destruct s as [|c0 [|c1 body]]; try discriminate.
  cbn in Hp. destruct body; injection Hp as -> ->; eexists; reflexivity.
Qed.

Lemma substring_all (s : string) : String.substring 0 (String.length s) s = s.
Proof. induction s as [|c s IH]; cbn; [reflexivity|]. rewrite IH. reflexivity. Qed.

Lemma all_hex_run (body : string) :
  all_hex body = true -> hex_run (String.length body) body = Some EmptyString.
Proof.
  induction body as [|c body IH]; cbn; [reflexivity|].
  destruct (is_hex c); cbn; [exact IH|discriminate].
Qed.

Lemma hex_run_all (count : nat) :
  forall body, hex_run count body = Some EmptyString -> all_hex body = true.
Proof.
  induction count as [|count IH]; intros body; cbn [hex_run].
  - intros [= ->]. reflexivity.
  - destruct body as [|c body]; [discriminate|]. cbn [all_hex].
    destruct (is_hex c); [|discriminate]. intros Hr. cbn. apply IH, Hr.
Qed.

(** On a string carrying the prefix, the test of [validate_keccak_or_padded]
    is the pattern of [validate_keccak256] without the newline. *)
Lemma padded_test_spec (body : string) :
  (String.length ("0x" +:+ body) =? 66)%nat &&
  all_hex (String.substring 2 (String.length ("0x" +:+ body) - 2) ("0x" +:+ body)) = true <->
  match_0x_hex 64 ("0x" +:+ body) = true /\ String.length ("0x" +:+ body) = 66%nat.
Proof.
  assert (Hlen : String.length ("0x" +:+ body) = S (S (String.length body)))
    by reflexivity.
  assert (Hsub : String.substring 2 (String.length ("0x" +:+ body) - 2) ("0x" +:+ body) = body).
  { rewrite Hlen. replace (S (S (String.length body)) - 2)%nat with (String.length body) by lia.
    exact (substring_all body). }
  assert (Hm : match_0x_hex 64 ("0x" +:+ body) =
               match hex_run 64 body with Some rest => at_end rest | None => false end)
    by reflexivity.
  rewrite Hsub, Hm, Hlen. rewrite andb_true_iff, Nat.eqb_eq. split.
  - intros [Hl Hh]. split; [|exact Hl].
    replace 64%nat with (String.length body) by lia.
    rewrite (all_hex_run body Hh). reflexivity.
  - intros [Hr Hl]. split; [exact Hl|].
    destruct (hex_run 64 body) as [rest|] eqn:E; [|discriminate].
    pose proof (hex_run_length _ _ _ E) as Hl'.
    assert (rest = EmptyString) by (destruct rest; [reflexivity|cbn in Hl'; lia]).
    subst rest. eapply hex_run_all, E.
Qed.

(** X17. [validate_keccak_or_padded] returns exactly what
    [validate_keccak256] returns when that has 66 characters: the two
    agree except on an input that ends with a newline, which only
    [validate_keccak256] accepts. *)
Theorem keccak_or_padded_agrees_with_keccak256 (v : pyvalue) (r : string) :
  validate_keccak_or_padded v = Ok r <->
  validate_keccak256 v = Ok r /\ String.length r = 66%nat.
Proof.
  unfold validate_keccak_or_padded, validate_keccak256.
  destruct v as [s|s|s|]; cbn [rbind];
    try (split; [discriminate|intros [? _]; discriminate]);
    (destruct (startswith_0x_shape (add_0x s) (startswith_add_0x s)) as (body & Hb);
     rewrite Hb; pose proof (padded_test_spec body) as Hspec;
     destruct (_ && _) eqn:Ht;
     [ destruct (proj1 Hspec eq_refl) as [Hm Hl]; rewrite Hm; cbn [negb];
       split; [intros [= <-]; auto|intros [Hr _]; exact Hr]
     | split; [discriminate|];
       destruct (match_0x_hex 64 ("0x" +:+ body)) eqn:Hm; cbn [negb];
         [|intros [? _]; discriminate];
       intros [[= <-] Hl];
       assert (false = true) by (apply Hspec; auto); discriminate ]).
Qed.

Example keccak256_accepts_trailing_newline :
  let v := "0x00000000000000000000000000000000000000000000000000000000000000ff" +:+ newline in
  validate_keccak256 (PyStr v) = Ok v /\
  validate_keccak_or_padded (PyStr v) = Raise VValueError.
Proof. vm_compute. split; reflexivity. Qed.

(** X18. [hexbytes_to_str] turns a str into one that starts with "0x",
    leaves such a str alone, and does not change what the three validators
    return. *)
Theorem hexbytes_to_str_is_prefix_normalization (s : string) :
  exists r,
    hexbytes_to_str (PyStr s) = PyStr r /\
    startswith_0x r = true /\
    hexbytes_to_str (PyStr r) = PyStr r /\
    validate_keccak256 (PyStr r) = validate_keccak256 (PyStr s) /\
    validate_eth_address (PyStr r) = validate_eth_address (PyStr s) /\
    validate_keccak_or_padded (PyStr r) = validate_keccak_or_padded (PyStr s).
Proof.
  exists (add_0x s).
  pose proof (startswith_add_0x s) as Hp.
  assert (Hid : add_0x (add_0x s) = add_0x s) by (apply add_0x_id, Hp).
  unfold hexbytes_to_str, validate_keccak256, validate_eth_address,
    validate_keccak_or_padded. cbn [rbind]. rewrite Hid, Hp. cbn [negb].
  repeat split; try reflexivity.
  unfold add_0x. destruct (startswith_0x s); reflexivity.
Qed.

End Validators.

(** * Properties of types/data_types.py *)

Import DataTypes.

Section Flatten.

Lemma take_lookup (asset : gmap string JSON) (key target : string)
    (values : gmap string JSON) (k : string) :
  take asset key target values !! k =
    if decide (k = target) then first_some (values !! target) (asset !! key)
    else values !! k.
Proof.
  unfold take, setdefault.
  destruct (asset !! key) as [v|] eqn:Ha.
  - destruct (values !! target) as [x|] eqn:Hv.
    + case_decide; [subst k; rewrite Hv|]; reflexivity.
    + case_decide; [subst k; apply lookup_insert_eq|].
      apply lookup_insert_ne. congruence.
  - case_decide; [subst k; destruct (values !! target)|]; reflexivity.
Qed.

(** X19. When [asset] is a dict, [_flatten] removes it and fills the four
    flat keys from it, each only if the key is not already present: a
    value given at the top level always wins.  No other key changes. *)
Theorem flatten_fills_missing_keys (values asset : gmap string JSON) :
  values !! "asset" = Some (JDict asset) ->
  _flatten values !! "asset" = None /\
  _flatten values !! "token_id" = first_some (values !! "token_id") (asset !! "id") /\
  _flatten values !! "complementary_token_id" =
    first_some (values !! "complementary_token_id") (asset !! "complement") /\
  _flatten values !! "condition_id" =
    first_some (values !! "condition_id")
      (match asset !! "condition" with
       | Some (JDict condition) => condition !! "id"
       | _ => None
       end) /\
  _flatten values !! "outcome_index" =
    first_some (values !! "outcome_index") (asset !! "outcomeIndex") /\
  (forall k, k <> "asset" -> k <> "token_id" -> k <> "complementary_token_id" ->
             k <> "condition_id" -> k <> "outcome_index" ->
             _flatten values !! k = values !! k).
Proof.
  intros Ha. unfold _flatten. rewrite Ha.
  assert (Hcond : forall vs k,
            (match asset !! "condition" with
             | Some (JDict condition) => take condition "id" "condition_id" vs
             | _ => vs
             end) !! k =
            if decide (k = "condition_id")
            then first_some (vs !! "condition_id")
                   (match asset !! "condition" with
                    | Some (JDict condition) => condition !! "id"
                    | _ => None
                    end)
            else vs !! k).
  { intros vs k. destruct (asset !! "condition") as [[| | | | | |condition]|];
      try (case_decide; [subst k; destruct (vs !! "condition_id")|]; reflexivity).
    apply take_lookup. }
  split; [apply lookup_delete_eq|].
  repeat split; intros;
    rewrite lookup_delete_ne by congruence;
    repeat (rewrite take_lookup || rewrite Hcond);
    repeat case_decide; try congruence; reflexivity.
Qed.

Lemma flatten_fills_missing_keys_witness :
  let asset : gmap string JSON := <["id" := JStr "7"]> (<["complement" := JStr "8"]> ∅) in
  let values : gmap string JSON :=
    <["asset" := JDict asset]> (<["token_id" := JStr "mine"]> ∅) in
  _flatten values !! "token_id" = first_some (values !! "token_id") (asset !! "id").
Proof.
  intros asset values.
  destruct (flatten_fills_missing_keys values asset) as (_ & Ht & _);
    [apply lookup_insert_eq|exact Ht].
Defined.

(** X20. [_flatten] leaves a dict alone when its [asset] is absent or is
    not a dict, and flattening twice is the same as flattening once. *)
Theorem flatten_is_idempotent (values : gmap string JSON) :
  ((forall asset, values !! "asset" <> Some (JDict asset)) -> _flatten values = values) /\
  _flatten (_flatten values) = _flatten values.
Proof.
  assert (Hno : forall vs : gmap string JSON,
            (forall asset, vs !! "asset" <> Some (JDict asset)) -> _flatten vs = vs).
  { intros vs Hn. unfold _flatten.
    destruct (vs !! "asset") as [[| | | | | |asset]|] eqn:E; try reflexivity.
    exfalso. exact (Hn asset eq_refl). }
  split; [apply Hno|].
  destruct (values !! "asset") as [[| | | | | |asset]|] eqn:E.
  7:{ apply Hno. intros a.
      destruct (flatten_fills_missing_keys values asset E) as [Hr _].
      rewrite Hr. discriminate. }
  all: rewrite (Hno values) by (intros a; rewrite E; discriminate);
       apply Hno; intros a; rewrite E; discriminate.
Qed.

End Flatten.

(** * LiveData subscriptions without authenticated topics *)

(** X21. When no subscription has the topic "clob_user", credentials are
    not used: with or without them the payload holds the caller's own
    dicts, the store is left as it is, and [live_data_socket] does not
    raise. *)
Theorem live_data_ignores_unneeded_credentials `{Library}
    (subscriptions : list loc) (creds : option ApiCreds)
    (process_event : EventWrapper -> io unit) (script : list session) (h : store) :
  (forall sub, sub ∈ subscriptions -> deref h sub !! "topic" <> Some (JStr "clob_user")) ->
  live_data_payload subscriptions creds h = (Ok (mkPayload "subscribe" subscriptions), h) /\
  payload_json h (mkPayload "subscribe" subscriptions) =
    JDict (<["action" := JStr "subscribe"]>
           (<["subscriptions" := JList ((fun sub => JDict (deref h sub)) <$> subscriptions)]> ∅)) /\
  (live_data_socket subscriptions process_event creds script h).1.2 = Ok tt /\
  (live_data_socket subscriptions process_event creds script h).2 = h.
Proof.
  intros Hno.
  assert (Hn : needs_auth h subscriptions = false).
  { destruct (needs_auth h subscriptions) eqn:E; [|reflexivity].
    apply needs_auth_spec in E as (sub & Hin & Hs).
    apply is_clob_user_spec in Hs. destruct (Hno sub Hin Hs). }
  assert (Hp : live_data_payload subscriptions creds h =
               (Ok (mkPayload "subscribe" subscriptions), h)).
  { unfold live_data_payload. rewrite Hn. reflexivity. }
  split; [exact Hp|]. split; [reflexivity|].
  unfold live_data_socket. rewrite Hp. cbn [fst snd].
  split; [apply for_each_ok; intros s; apply turn_ok|reflexivity].
Qed.

Lemma live_data_ignores_unneeded_credentials_witness :
  let L := sample_library in
  let h : store := <[1%positive := <["topic" := JStr "comments"]> ∅]> ∅ in
  @live_data_payload L [1%positive] (Some ("k", "s", "p")) h =
    (Ok (mkPayload "subscribe" [1%positive]), h).
Proof.
  intros L h.
  apply (@live_data_ignores_unneeded_credentials L [1%positive] (Some ("k", "s", "p"))
           (fun _ => ret tt) [] h).
  intros sub Hin. apply list_elem_of_singleton in Hin. subst sub.
  vm_compute. discriminate.
Defined.

(** * A burst of valid snapshots *)

(** X22. On an array frame whose elements are all dicts that validate as
    [OrderBookSummaryEvent], the Market handler prints one event per
    element, in the order of the array, and returns. *)
Theorem market_array_of_valid_books `{Library} (books : list (gmap string JSON)) :
  Forall (fun fields =>
            event_type_errors OrderBookSummaryEvent fields = [] /\
            field_errors OrderBookSummaryEvent fields = []) books ->
  _process_market_event (EventWrapper_init (JList (JDict <$> books))) =
    ((fun fields => Printed (PEvent (mkEvent OrderBookSummaryEvent fields))) <$> books,
     Ok tt).
Proof.
  intros Hall. unfold _process_market_event, EventWrapper_init. cbn [json text].
  set (body := fun item : JSON => try_except _ _).
  assert (Hloop : for_each (JDict <$> books) body =
                  ((fun fields => Printed (PEvent (mkEvent OrderBookSummaryEvent fields)))
                     <$> books, Ok tt)).
  { induction Hall as [|fields rest [He Hf] _ IH]; [reflexivity|].
    cbn [fmap list_fmap for_each]. fold (@fmap list _ _ _ JDict rest).
    assert (Hb : body (JDict fields) =
                 ([Printed (PEvent (mkEvent OrderBookSummaryEvent fields))], Ok tt)).
    { unfold body. rewrite print_event_dispatched by exact He. rewrite Hf. reflexivity. }
    rewrite Hb. cbn [bind]. rewrite IH. reflexivity. }
  rewrite Hloop. reflexivity.
Qed.

Lemma market_array_of_valid_books_witness :
  let L := sample_library in
  let book : gmap string JSON := <["event_type" := JStr "book"]> ∅ in
  @_process_market_event L (@EventWrapper_init L (JList (JDict <$> [book; book]))) =
    ((fun fields => Printed (PEvent (mkEvent OrderBookSummaryEvent fields))) <$> [book; book],
     Ok tt).
Proof.
  intros L book.
  apply (@market_array_of_valid_books L [book; book]).
  repeat constructor.
Defined.
